(** * Tailing agents of mtmCalcDbManager_Brite: coercion, chunked reading, publishing

    A shallow embedding of the ingestion agents ([index2.js], [nseFNO.js] and
    its siblings, [server.js]) and the properties of their tailing, parsing
    and publishing pipeline.

    Conventions of the embedding.
    - A JavaScript string is the list of its UTF-16 code units ([jsstring]).
    - A JavaScript Number is an IEEE 754 binary64 value, taken from the
      Standard Library's [spec_float] with precision 53 and [emax] 1024;
      decimal text is converted with round-to-nearest-even.
    - A file is the list of its bytes; [Buffer.prototype.toString] is the
      UTF-8 decoder of the WHATWG Encoding Standard, which replaces every
      maximal ill-formed subsequence by U+FFFD.
    - Globals of a script ([offset], [partialLine], [batch], ...) are fields
      of an explicit state that every function threads through.
    - [Math.pow] is implementation-approximated in ECMAScript; it is a
      variable of the development, constrained only where a theorem needs it.
    - The CSV parser (fast-csv) and the bus client (kafkajs) are collaborators
      outside the repository: the first is a variable telling, for a line,
      whether the promise of [parseCsvRow] is fulfilled with a row, is
      rejected, or stays pending for ever; the second is an oracle telling
      whether the n-th send succeeds.
    - An [await] on a promise that stays pending stops the async function
      for good; a run is either one that returns or one that hangs, and
      carries the globals as they are from then on.
    - Property names are the names on which a JavaScript object behaves as
      a table in insertion order: array indices and the names found on
      [Object.prototype] are left out of the type of names. *)

From Stdlib Require Import ZArith NArith List Bool Lia.
From Stdlib Require Strings.String.
From Stdlib Require Import Strings.Byte.
Import String.StringSyntax.
Delimit Scope string_scope with string.
From Stdlib Require Decimal DecimalZ DecimalPos.
From Stdlib Require Import SpecFloat.
Import ListNotations.

(** ** JavaScript strings *)

Definition jschar := N.
Definition jsstring := list jschar.

(** An ASCII literal as a JavaScript string. *)
Definition lit (s : String.string) : jsstring :=
  map Byte.to_N (String.list_byte_of_string s).
Arguments lit s%_string.

Definition LF : jschar := 10%N.

Fixpoint streq (a b : jsstring) : bool :=
  match a, b with
  | [], [] => true
  | x :: a', y :: b' => N.eqb x y && streq a' b'
  | _, _ => false
  end.

Fixpoint startsWith (s p : jsstring) : bool :=
  match p, s with
  | [], _ => true
  | _ :: _, [] => false
  | x :: p', y :: s' => N.eqb x y && startsWith s' p'
  end.

Fixpoint includes (s needle : jsstring) : bool :=
  startsWith s needle ||
  match s with
  | [] => false
  | _ :: s' => includes s' needle
  end.

(** [String.prototype.toLowerCase]: the ASCII letters are folded; the Unicode
    case tables for the other code units are not modelled and leave them
    unchanged (no non-ASCII letter folds to one of [t r u e]). *)
Definition lowerChar (c : jschar) : jschar :=
  if (65 <=? c)%N && (c <=? 90)%N then (c + 32)%N else c.

Definition toLowerCase (s : jsstring) : jsstring := map lowerChar s.

(** [s.split(sep)] for a separator of one code unit, the only use in the
    sources ([data.split("\n")], [str.split("e")]): never empty. *)
Fixpoint split (sep : jschar) (s : jsstring) : list jsstring :=
  match s with
  | [] => [[]]
  | c :: s' =>
      if N.eqb c sep then [] :: split sep s'
      else match split sep s' with
           | [] => [[c]]
           | h :: t => (c :: h) :: t
           end
  end.

(** WhiteSpace and LineTerminator code units (StrWhiteSpaceChar). *)
Definition isWhiteSpace (c : jschar) : bool :=
  existsb (N.eqb c)
    [9; 10; 11; 12; 13; 32; 160; 0x1680; 0x2028; 0x2029; 0x202F; 0x205F;
     0x3000; 0xFEFF]%N
  || ((0x2000 <=? c)%N && (c <=? 0x200A)%N).

Fixpoint dropWhile (p : jschar -> bool) (s : jsstring) : jsstring :=
  match s with
  | [] => []
  | c :: s' => if p c then dropWhile p s' else s
  end.

Fixpoint takeWhile (p : jschar -> bool) (s : jsstring) : jsstring :=
  match s with
  | [] => []
  | c :: s' => if p c then c :: takeWhile p s' else []
  end.

Definition trimStart (s : jsstring) : jsstring := dropWhile isWhiteSpace s.
Definition trimEnd (s : jsstring) : jsstring := rev (dropWhile isWhiteSpace (rev s)).
Definition trim (s : jsstring) : jsstring := trimEnd (trimStart s).

(** ** Decimal digits *)

Definition isDigit (c : jschar) : bool := (48 <=? c)%N && (c <=? 57)%N.

Fixpoint uintOfDigits (ds : jsstring) : Decimal.uint :=
  match ds with
  | [] => Decimal.Nil
  | c :: r =>
      let u := uintOfDigits r in
      match (c - 48)%N with
      | 0%N => Decimal.D0 u | 1%N => Decimal.D1 u | 2%N => Decimal.D2 u | 3%N => Decimal.D3 u | 4%N => Decimal.D4 u
      | 5%N => Decimal.D5 u | 6%N => Decimal.D6 u | 7%N => Decimal.D7 u | 8%N => Decimal.D8 u | _ => Decimal.D9 u
      end
  end.

Fixpoint digitsOfUint (u : Decimal.uint) : jsstring :=
  match u with
  | Decimal.Nil => []
  | Decimal.D0 u => 48%N :: digitsOfUint u | Decimal.D1 u => 49%N :: digitsOfUint u
  | Decimal.D2 u => 50%N :: digitsOfUint u | Decimal.D3 u => 51%N :: digitsOfUint u
  | Decimal.D4 u => 52%N :: digitsOfUint u | Decimal.D5 u => 53%N :: digitsOfUint u
  | Decimal.D6 u => 54%N :: digitsOfUint u | Decimal.D7 u => 55%N :: digitsOfUint u
  | Decimal.D8 u => 56%N :: digitsOfUint u | Decimal.D9 u => 57%N :: digitsOfUint u
  end.

(** The mathematical value of a sequence of decimal digits. *)
Definition decimalValue (ds : jsstring) : Z := Z.of_uint (uintOfDigits ds).

(** Digits of the other radices of a numeric literal ([0x], [0o], [0b]). *)
Definition digitIn (radix : N) (c : jschar) : option N :=
  let d :=
    if isDigit c then Some (c - 48)%N
    else if (97 <=? c)%N && (c <=? 102)%N then Some (c - 87)%N
    else if (65 <=? c)%N && (c <=? 70)%N then Some (c - 55)%N
    else None in
  match d with
  | Some v => if (v <? radix)%N then Some v else None
  | None => None
  end.

Fixpoint radixValue (radix : N) (acc : Z) (ds : jsstring) : option Z :=
  match ds with
  | [] => Some acc
  | c :: r =>
      match digitIn radix c with
      | Some v => radixValue radix (acc * Z.of_N radix + Z.of_N v)%Z r
      | None => None
      end
  end.

(** A NonDecimalIntegerLiteral: its radix and digits, when [s] is one. *)
Definition nonDecimalLiteral (s : jsstring) : option Z :=
  match s with
  | z :: p :: d :: ds =>
      if negb (N.eqb z 48) then None
      else if N.eqb p 120 || N.eqb p 88 then radixValue 16 0 (d :: ds)
      else if N.eqb p 111 || N.eqb p 79 then radixValue 8 0 (d :: ds)
      else if N.eqb p 98 || N.eqb p 66 then radixValue 2 0 (d :: ds)
      else None
  | _ => None
  end.

(** An optional sign: whether it is a minus, and the rest. *)
Definition takeSign (s : jsstring) : bool * jsstring :=
  match s with
  | 45%N :: r => (true, r)
  | 43%N :: r => (false, r)
  | _ => (false, s)
  end.

(** ** JavaScript Numbers *)

Definition number := spec_float.
Definition NaN : number := S754_nan.

(** The Number value for an integer: the nearest binary64, ties to even. *)
Definition ofZ (z : Z) : number := binary_normalize 53 1024 z 0 false.

(** The Number value for the rational [p / q], correctly rounded. *)
Definition ofRatio (neg : bool) (p q : positive) : number :=
  let '(mz, ez, lz) := SFdiv_core_binary 53 1024 (Zpos p) 0 (Zpos q) 0 in
  binary_round_aux 53 1024 neg mz ez lz.

(** The Number value for [m * 10 ^ k], [m] a natural number, with the
    sign given apart so that a zero keeps it. *)
Definition ofDecimal (neg : bool) (m k : Z) : number :=
  match m with
  | Zpos p =>
      if (0 <=? k)%Z then ofZ (if neg then - (m * 10 ^ k) else m * 10 ^ k)
      else ofRatio neg p (Z.to_pos (10 ^ (- k)))
  | _ => S754_zero neg
  end.

Definition times (x y : number) : number := SFmul 53 1024 x y.

(** The integer a Number denotes, when it is integral. *)
Definition integerOf (x : number) : option Z :=
  match x with
  | S754_zero _ => Some 0%Z
  | S754_finite s m e =>
      let v := if (0 <=? e)%Z then Some (Zpos m * 2 ^ e)%Z
               else if (Zpos m mod 2 ^ (- e) =? 0)%Z then Some (Zpos m / 2 ^ (- e))%Z
               else None in
      option_map (fun a => if s then (- a)%Z else a) v
  | _ => None
  end.

(** [Math.round]: the integral Number closest to [x], ties towards
    +Infinity, that is [floor (x + 1/2)]; a result of zero keeps the sign
    of [x]. *)
Definition Math_round (x : number) : number :=
  match x with
  | S754_finite s m e =>
      if (0 <=? e)%Z then x
      else
        let sm := if s then Z.neg m else Z.pos m in
        let r := ((2 * sm + 2 ^ (- e)) / 2 ^ (1 - e))%Z in
        if (r =? 0)%Z then S754_zero s else ofZ r
  | _ => x
  end.

(** StrDecimalLiteral at the head of [s]: its Number value and what
    follows it. *)
Definition scanDecimalLiteral (s : jsstring) : option (number * jsstring) :=
  let '(neg, s1) := takeSign s in
  if startsWith s1 (lit "Infinity") then
    Some (S754_infinity neg, skipn 8 s1)
  else
    let ip := takeWhile isDigit s1 in
    let r1 := dropWhile isDigit s1 in
    let '(fp, r2) :=
      match r1 with
      | 46%N :: r => (takeWhile isDigit r, dropWhile isDigit r)
      | _ => ([], r1)
      end in
    match ip ++ fp with
    | [] => None
    | mant =>
        let '(ex, r3) :=
          match r2 with
          | c :: r =>
              if N.eqb c 101 || N.eqb c 69 then
                let '(eneg, r') := takeSign r in
                match takeWhile isDigit r' with
                | [] => (0%Z, r2)
                | ed => ((if eneg then - decimalValue ed else decimalValue ed)%Z,
                         dropWhile isDigit r')
                end
              else (0%Z, r2)
          | [] => (0%Z, r2)
          end in
        Some (ofDecimal neg (decimalValue mant) (ex - Z.of_nat (length fp)), r3)
    end.

(** [parseFloat(s)]: the longest prefix of the left-trimmed text that is a
    StrDecimalLiteral, [NaN] when there is none. *)
Definition parseFloat (s : jsstring) : number :=
  match scanDecimalLiteral (trimStart s) with
  | Some (x, _) => x
  | None => NaN
  end.

(** [parseInt(s, 10)]: left-trim, optional sign, the longest prefix of
    decimal digits; [NaN] when that prefix is empty. *)
Definition parseInt10 (s : jsstring) : number :=
  let '(neg, s1) := takeSign (trimStart s) in
  match takeWhile isDigit s1 with
  | [] => NaN
  | ds =>
      let v := decimalValue ds in
      if (v =? 0)%Z then S754_zero neg else ofZ (if neg then - v else v)
  end.

(** [Number(s)] (StringToNumber): the whole trimmed text must be a numeric
    literal; the empty text is [+0]. *)
Definition Number_ (s : jsstring) : number :=
  match trim s with
  | [] => S754_zero false
  | t =>
      match nonDecimalLiteral t with
      | Some v => ofZ v
      | None =>
          match scanDecimalLiteral t with
          | Some (x, []) => x
          | _ => NaN
          end
      end
  end.

(** ** Values, exceptions, BigInt *)

Inductive jserror := SyntaxError | RangeError | TypeError.

Inductive completion (A : Type) :=
| Normal (a : A)
| Throw (e : jserror).
Arguments Normal {A} a.
Arguments Throw {A} e.

Definition bind {A B : Type} (c : completion A) (k : A -> completion B) : completion B :=
  match c with
  | Normal a => k a
  | Throw e => Throw e
  end.

Inductive jsval :=
| JNull
| JBool (b : bool)
| JNum (x : number)
| JStr (s : jsstring).

(** [BigInt(s)] for a string (StringToBigInt): a SyntaxError unless the
    trimmed text is empty, a signed run of decimal digits, or a
    non-decimal integer literal. *)
Definition BigInt_of_string (s : jsstring) : completion Z :=
  match trim s with
  | [] => Normal 0%Z
  | t =>
      match nonDecimalLiteral t with
      | Some v => Normal v
      | None =>
          let '(neg, ds) := takeSign t in
          match ds with
          | [] => Throw SyntaxError
          | _ =>
              if forallb isDigit ds
              then Normal (if neg then - decimalValue ds else decimalValue ds)%Z
              else Throw SyntaxError
          end
      end
  end.

(** [BigInt(x)] for a Number: a RangeError unless [x] is integral. *)
Definition BigInt_of_number (x : number) : completion Z :=
  match integerOf x with
  | Some z => Normal z
  | None => Throw RangeError
  end.

(** [BigInt.prototype.toString()]: canonical decimal digits. *)
Definition BigInt_toString (z : Z) : jsstring :=
  match Z.to_int z with
  | Decimal.Pos u => digitsOfUint u
  | Decimal.Neg u => 45%N :: digitsOfUint u
  end.

(** What [parseScientificBigInt] returns: the empty string or a BigInt;
    [toString] is its [.toString()]. *)
Inductive strOrBigInt :=
| EmptyStr
| Big (z : Z).

Definition toString (v : strOrBigInt) : jsstring :=
  match v with
  | EmptyStr => []
  | Big z => BigInt_toString z
  end.

(** ** The coercion layer ([index2.js], [nseFNO.js] and its siblings) *)

Inductive ftype := TInt | TFloat | TBool | TBigInt | TStr | TOther.

Section Coercion.

(** [Math.pow], left to the implementation. *)
Variable Math_pow : number -> number -> number.

(** [parseScientificBigInt(str)]: [const [coeff, exp] = ...split("e")] takes
    the first two pieces; a missing piece is [undefined], which both
    [parseFloat] and [Number] turn into [NaN]. *)
Definition parseScientificBigInt (str : jsstring) : completion strOrBigInt :=
  match str with
  | [] => Normal EmptyStr
  | _ =>
      let str := trim str in
      if negb (includes str (lit "e")) && negb (includes str (lit "E")) then
        bind (BigInt_of_string str) (fun z => Normal (Big z))
      else
        let parts := split 101%N (toLowerCase str) in
        let coeff := match parts with c :: _ => parseFloat c | [] => NaN end in
        let exp := match parts with _ :: e :: _ => Number_ e | _ => NaN end in
        let multiplier := Math_pow (ofZ 10) exp in
        bind (BigInt_of_number (Math_round (times coeff multiplier)))
             (fun result => Normal (Big result))
  end.

(** [parseValue(value, type)]; [None] is [undefined], the value of a column
    the row lacks. The [try]/[catch] turns every exception into [null]. *)
Definition parseValue (value : option jsstring) (type : ftype) : jsval :=
  match value with
  | None | Some [] => JNull
  | Some v =>
      match type with
      | TInt => JNum (parseInt10 v)
      | TFloat => JNum (parseFloat v)
      | TBool => JBool (streq (toLowerCase v) (lit "true") || streq v (lit "1"))
      | TBigInt =>
          match parseScientificBigInt v with
          | Normal r => JStr (toString r)
          | Throw _ => JNull
          end
      | TStr | TOther => JStr v
      end
  end.

End Coercion.

(** ** The coercion layer of [server.js] *)

Module Server.

Section Coercion.

Variable Math_pow : number -> number -> number.

(** [parseValue(value, type)] of [server.js]: blank cells give the empty
    string; the ['bool'] case evaluates its expression and, having no
    [return], falls through into the ['BigInt'] case. The [console.error]
    of the [catch] is not part of the result. *)
Definition parseValue (value : option jsstring) (type : ftype) : jsval :=
  match value with
  | None => JStr []
  | Some v =>
      match trim v with
      | [] => JStr []
      | _ =>
          let caseBigInt :=
            match parseScientificBigInt Math_pow v with
            | Normal r => JStr (toString r)
            | Throw _ => JNull
            end in
          match type with
          | TInt => JNum (parseInt10 v)
          | TFloat => JNum (parseFloat v)
          | TBool =>
              let _ := if streq (toLowerCase v) (lit "true") || streq v (lit "1")
                       then 1%Z else 0%Z in
              caseBigInt
          | TBigInt => caseBigInt
          | TStr | TOther => JStr v
          end
      end
  end.

End Coercion.

End Server.

(** ** Property names *)

(** An array index: the canonical decimal text of an integer from 0 to
    [2 ^ 32 - 2]. [Object.entries], [Object.keys] and [JSON.stringify] list
    the properties named by array indices first, in ascending order, and
    only then the others, in the order of their creation. *)
Definition isArrayIndex (k : jsstring) : bool :=
  match k with
  | [] => false
  | c :: r =>
      forallb isDigit k
      && (negb (N.eqb c 48) || match r with [] => true | _ :: _ => false end)
      && (decimalValue k <=? 4294967294)%Z
  end.

(** The properties every object built by [{}] inherits from
    [Object.prototype]: a read [o[k]] finds them when [o] has no property
    [k] of its own, and an assignment to [__proto__] creates no property. *)
Definition ObjectPrototype : list jsstring :=
  [lit "constructor"; lit "__defineGetter__"; lit "__defineSetter__";
   lit "hasOwnProperty"; lit "__lookupGetter__"; lit "__lookupSetter__";
   lit "isPrototypeOf"; lit "propertyIsEnumerable"; lit "toString";
   lit "valueOf"; lit "__proto__"; lit "toLocaleString"].

(** The names on which an object behaves as a plain table: neither an
    array index nor a name found on [Object.prototype]. *)
Definition isOrdinary (k : jsstring) : bool :=
  negb (isArrayIndex k) && negb (existsb (streq k) ObjectPrototype).

(** A property name of the schemas and rows of the scripts. Every header
    and every field name of [HEADER_MAPPING] and [FIELD_TYPES] in the
    sources is of this kind (["Membr id"], ["membr_id"], ["hardcoded_1"],
    ...), and so is ["_uuid"]; the objects of the model have no other
    names, so that the order of their properties is the order of creation
    and a read finds an own property or [undefined]. *)
Record key := {
  text : jsstring;
  ordinary : isOrdinary text = true
}.

(** The name written as an ASCII literal. *)
Abbreviation key_of s := (Build_key (lit s) eq_refl).

Definition keq (a b : key) : bool := streq (text a) (text b).

(** ** Objects and the record mapper *)

(** An object with ordinary names: its own properties, in the order
    [Object.entries] lists them. *)
Definition object (V : Type) := list (key * V).

(** [o[k]]: the own property, or [undefined]. *)
Fixpoint get {V : Type} (k : key) (o : object V) : option V :=
  match o with
  | [] => None
  | (k', v) :: o' => if keq k k' then Some v else get k o'
  end.

(** [o[k] = v]: an existing property keeps its place, a new one comes
    last. *)
Fixpoint set {V : Type} (k : key) (v : V) (o : object V) : object V :=
  match o with
  | [] => [(k, v)]
  | (k', v') :: o' => if keq k k' then (k, v) :: o' else (k', v') :: set k v o'
  end.

Definition row := object jsstring.
Definition record := object jsval.

Section Mapper.

Variable Math_pow : number -> number -> number.
Variable HEADER_MAPPING : object key.
Variable FIELD_TYPES : object ftype.

(** [mapRow(row)], the UUID drawn by [randomUUID()] given as [uuid]. *)
Definition mapRow (uuid : jsstring) (r : row) : record :=
  let mapped :=
    fold_left
      (fun mapped '(csvHeader, dbField) =>
         let type := match get csvHeader FIELD_TYPES with
                     | Some t => t
                     | None => TStr
                     end in
         set dbField (parseValue Math_pow (get csvHeader r) type) mapped)
      HEADER_MAPPING [] in
  set (key_of "_uuid") (JStr uuid) mapped.

End Mapper.

(** ** Files and [Buffer.prototype.toString] *)

Definition file := list byte.

(** The bytes of an ASCII literal. *)
Definition bytes (s : String.string) : file := String.list_byte_of_string s.
Arguments bytes s%_string.

Definition REPLACEMENT : N := 0xFFFD%N.

(** State of the UTF-8 decoder: continuation bytes still needed, the code
    point under construction, and the range allowed for the next byte. *)
Record utf8State := {
  needed : nat;
  codePoint : N;
  lower : N;
  upper : N
}.

Definition utf8Start : utf8State :=
  {| needed := 0; codePoint := 0; lower := 0x80; upper := 0xBF |}%N.

(** A byte read when no sequence is open. *)
Definition utf8Lead (b : N) : list N * utf8State :=
  if (b <=? 0x7F)%N then ([b], utf8Start)
  else if (0xC2 <=? b)%N && (b <=? 0xDF)%N then
    ([], {| needed := 1; codePoint := N.land b 0x1F; lower := 0x80; upper := 0xBF |})
  else if (0xE0 <=? b)%N && (b <=? 0xEF)%N then
    ([], {| needed := 2; codePoint := N.land b 0xF;
            lower := if N.eqb b 0xE0 then 0xA0 else 0x80;
            upper := if N.eqb b 0xED then 0x9F else 0xBF |})
  else if (0xF0 <=? b)%N && (b <=? 0xF4)%N then
    ([], {| needed := 3; codePoint := N.land b 0x7;
            lower := if N.eqb b 0xF0 then 0x90 else 0x80;
            upper := if N.eqb b 0xF4 then 0x8F else 0xBF |})
  else ([REPLACEMENT], utf8Start).

(** One byte: a byte outside the allowed range closes the open sequence
    with U+FFFD and is then read again as a lead byte. *)
Definition utf8Step (st : utf8State) (b : N) : list N * utf8State :=
  match needed st with
  | O => utf8Lead b
  | S k =>
      if (lower st <=? b)%N && (b <=? upper st)%N then
        let cp := (codePoint st * 64 + N.land b 0x3F)%N in
        match k with
        | O => ([cp], utf8Start)
        | S _ => ([], {| needed := k; codePoint := cp; lower := 0x80; upper := 0xBF |})
        end
      else
        let '(out, st') := utf8Lead b in (REPLACEMENT :: out, st')
  end.

(** The code points of a byte sequence; a sequence cut short by the end of
    the input gives U+FFFD. *)
Fixpoint utf8Decode (st : utf8State) (bs : list N) : list N :=
  match bs with
  | [] => match needed st with O => [] | S _ => [REPLACEMENT] end
  | b :: r => let '(out, st') := utf8Step st b in out ++ utf8Decode st' r
  end.

(** The UTF-16 code units of a code point. *)
Definition utf16 (cp : N) : jsstring :=
  if (cp <? 0x10000)%N then [cp]
  else [0xD800 + (cp - 0x10000) / 0x400; 0xDC00 + (cp - 0x10000) mod 0x400]%N.

(** [buffer.toString()], decoding the buffer on its own. *)
Definition Buffer_toString (buffer : list byte) : jsstring :=
  flat_map utf16 (utf8Decode utf8Start (map Byte.to_N buffer)).

(** ** Awaits that never settle *)

(** What an [await] finds of a promise: it is fulfilled with a value, it is
    rejected, or it stays pending for ever. *)
Inductive promise (T : Type) :=
| Fulfilled (v : T)
| Rejected
| Pending.
Arguments Fulfilled {T} v.
Arguments Rejected {T}.
Arguments Pending {T}.

(** A run of an async function: it returns, or it stops for good at an
    [await] whose promise stays pending. In both cases [s] is what the
    globals hold from then on. *)
Inductive run (St : Type) :=
| Returns (s : St)
| Hangs (s : St).
Arguments Returns {St} s.
Arguments Hangs {St} s.

Definition stateOf {St : Type} (r : run St) : St :=
  match r with
  | Returns s | Hangs s => s
  end.

Definition returned {St : Type} (r : run St) : bool :=
  match r with
  | Returns _ => true
  | Hangs _ => false
  end.

(** A part of the state of a run. *)
Definition mapRun {St T : Type} (f : St -> T) (r : run St) : run T :=
  match r with
  | Returns s => Returns (f s)
  | Hangs s => Hangs (f s)
  end.

(** The code that follows a run: it is reached when the run returns. *)
Definition andThen {St : Type} (r : run St) (k : St -> run St) : run St :=
  match r with
  | Returns s => k s
  | Hangs s => Hangs s
  end.

(** ** The chunked read loop *)

Section ReadLoop.

(** The body of [for (let line of lines)], acting on the rest of the state;
    it hangs when the promise it awaits stays pending. *)
Variable St : Type.
Variable forLine : St -> jsstring -> run St.
Variable chunkSize : nat.

(** [for (let line of lines)]. *)
Fixpoint forLines (lines : list jsstring) (s : St) : run St :=
  match lines with
  | [] => Returns s
  | line :: lines' =>
      match forLine s line with
      | Returns s' => forLines lines' s'
      | Hangs s' => Hangs s'
      end
  end.

(** The [while (position < stat.size)] loop of [readFile]. [content] is
    what [handle.read] sees of the file, [size] is [stat.size]. The result is the
    global [offset], [partialLine], and the rest of the state. When the
    loop exits, [offset] equals [position]; when the [for] body hangs,
    [partialLine] has been assigned for the chunk at hand and [offset] is
    still the position where that chunk begins. [fuel] bounds the
    iterations; every iteration advances [position], so [size - position]
    is enough. *)
Fixpoint readLoop (fuel : nat) (content : file) (size position : nat)
    (partialLine : jsstring) (s : St) : run (nat * jsstring * St) :=
  match fuel with
  | O => Returns (position, partialLine, s)
  | S fuel' =>
      if position <? size then
        let remaining := size - position in
        let readSize := Nat.min chunkSize remaining in
        let buffer := firstn readSize (skipn position content) in
        let bytesRead := length buffer in
        if bytesRead =? 0 then Returns (position, partialLine, s)
        else
          let data := partialLine ++ Buffer_toString buffer in
          let lines := split LF data in
          let partialLine := last lines [] in
          let lines := removelast lines in
          match forLines lines s with
          | Hangs s => Hangs (position, partialLine, s)
          | Returns s =>
              let position := position + bytesRead in
              readLoop fuel' content size position partialLine s
          end
      else Returns (position, partialLine, s)
  end.

End ReadLoop.

Arguments forLines {St} forLine lines s.
Arguments readLoop {St} forLine chunkSize fuel content size position partialLine s.

(** The lines the loop hands to its [for] body, in order, and the fragment
    left in [partialLine], for a body that only takes note of the line. *)
Definition emittedLines (chunkSize : nat) (content : file) (position : nat)
    (partialLine : jsstring) : list jsstring * jsstring :=
  let size := length content in
  let '(_, partial, seen) :=
    stateOf (readLoop (fun seen line => Returns (seen ++ [line])) chunkSize
                      (size - position) content size position partialLine []) in
  (seen, partial).

(** The complete lines of a content read at once: the text split on the
    line terminator, without the fragment after the last terminator. *)
Definition wholeFileLines (content : file) : list jsstring :=
  removelast (split LF (Buffer_toString content)).

(** The consecutive chunks of [n] bytes the loop reads. *)
Fixpoint chunksOf (fuel n : nat) (content : file) : list file :=
  match fuel, content with
  | O, _ | _, [] => []
  | S fuel', _ => firstn n content :: chunksOf fuel' n (skipn n content)
  end.

Definition chunks (n : nat) (content : file) : list file :=
  chunksOf (length content) n content.

(** ** Publishing and the read pass *)

Inductive logLine :=
| Published (n : nat)
| KafkaError
| ParseError.

(** What a script can see and change besides its cursor: the batch under
    construction, the sends made on the bus with their outcome, the console,
    and the number of UUIDs drawn. *)
Record pipeline := {
  headerParsed : bool;
  batch : list record;
  sends : list (list record * bool);
  console : list logLine;
  uuids : nat
}.

Record state := {
  offset : nat;
  partialLine : jsstring;
  pipe : pipeline;
  offsetFile : option nat
}.

(** Configuration and collaborators of one agent. [parseCsvRow] is the
    promise built around the CSV library: fulfilled by its [data] event,
    rejected by its [error] event, pending for ever when the library emits
    neither for the line. *)
Record agent := {
  Math_pow : number -> number -> number;
  HEADER_MAPPING : object key;
  FIELD_TYPES : object ftype;
  chunkSize : nat;
  batchSize : nat;
  parseCsvRow : jsstring -> promise row;
  randomUUID : nat -> jsstring;
  producer_send : nat -> bool
}.

Section Agent.

Variable A : agent.

(** [publishBatch()]: one [producer.send]; its failure is caught and
    logged; [batch = []] in both cases. *)
Definition publishBatch (p : pipeline) : pipeline :=
  match batch p with
  | [] => p
  | _ =>
      let ok := producer_send A (length (sends p)) in
      {| headerParsed := headerParsed p;
         batch := [];
         sends := sends p ++ [(batch p, ok)];
         console := console p ++
                    [if ok then Published (length (batch p)) else KafkaError];
         uuids := uuids p |}
  end.

(** The [try] block of the [for] body: await the row, map it, push it,
    flush when the batch is full; a rejection is caught and logged; when
    the promise stays pending nothing more happens. *)
Definition ingest (p : pipeline) (line : jsstring) : run pipeline :=
  match parseCsvRow A line with
  | Fulfilled parsed =>
      let mapped :=
        mapRow (Math_pow A) (HEADER_MAPPING A) (FIELD_TYPES A)
               (randomUUID A (uuids p)) parsed in
      let p' := {| headerParsed := headerParsed p;
                   batch := batch p ++ [mapped];
                   sends := sends p;
                   console := console p;
                   uuids := S (uuids p) |} in
      Returns (if batchSize A <=? length (batch p') then publishBatch p' else p')
  | Rejected =>
      Returns {| headerParsed := headerParsed p;
                 batch := batch p;
                 sends := sends p;
                 console := console p ++ [ParseError];
                 uuids := uuids p |}
  | Pending => Hangs p
  end.

(** [loadOffset()] and [saveOffset(offset)] on the offset file. *)
Definition loadOffset (st : state) : nat :=
  match offsetFile st with
  | Some n => n
  | None => 0
  end.

Definition saveOffset (st : state) : state :=
  {| offset := offset st; partialLine := partialLine st; pipe := pipe st;
     offsetFile := Some (offset st) |}.

(** The state after the start-up sequence: [offset = await loadOffset()]. *)
Definition boot (saved : option nat) : state :=
  {| offset := match saved with Some n => n | None => 0 end;
     partialLine := [];
     pipe := {| headerParsed := false; batch := []; sends := [];
                console := []; uuids := 0 |};
     offsetFile := saved |}.

(** [readFile()] around a [for] body: the loop, then [publishBatch] and
    [saveOffset]; a loop that hangs leaves the globals as they are then,
    and nothing is published or saved. The calls on the file system are
    taken to succeed. *)
Definition readFileWith (forLine : pipeline -> jsstring -> run pipeline)
    (st : state) (content : file) : run state :=
  let size := length content in
  if size =? offset st then Returns st
  else
    match readLoop forLine (chunkSize A) (size - offset st) content size
                   (offset st) (partialLine st) (pipe st) with
    | Returns (position, partial, p) =>
        Returns (saveOffset {| offset := position; partialLine := partial;
                               pipe := publishBatch p;
                               offsetFile := offsetFile st |})
    | Hangs (position, partial, p) =>
        Hangs {| offset := position; partialLine := partial; pipe := p;
                 offsetFile := offsetFile st |}
    end.

End Agent.

Module Index2.

Section Agent.

Variable A : agent.

(** The body of the [for] loop of [index2.js]: the first line that starts
    with the first header name is skipped. *)
Definition forLine (p : pipeline) (line : jsstring) : run pipeline :=
  if negb (headerParsed p) && startsWith line (lit "Membr id") then
    Returns {| headerParsed := true; batch := batch p; sends := sends p;
               console := console p; uuids := uuids p |}
  else ingest A p line.

(** [readFile()] of [index2.js]. *)
Definition readFile (st : state) (content : file) : run state :=
  readFileWith A forLine st content.

End Agent.

End Index2.

Module NseFNO.

Section Agent.

Variable A : agent.

(** The body of the [for] loop of [nseFNO.js]: no header line. *)
Definition forLine (p : pipeline) (line : jsstring) : run pipeline :=
  ingest A p line.

(** [readFile()] of [nseFNO.js]. *)
Definition readFile (st : state) (content : file) : run state :=
  readFileWith A forLine st content.

End Agent.

End NseFNO.

(** ** The poll loop of [startPolling] *)

(** [isProcessing], the [readFile] passes in flight, and the passes started
    so far. *)
Record poller := {
  isProcessing : bool;
  inFlight : nat;
  started : nat
}.

Inductive event :=
| Tick      (* the interval timer fires *)
| Settled.  (* the promise of a running [readFile] settles *)

(** The callback up to [await readFile()]. *)
Definition onTick (p : poller) : poller :=
  if isProcessing p then p
  else {| isProcessing := true; inFlight := S (inFlight p);
          started := S (started p) |}.

(** The continuation of the callback: the [finally] block. *)
Definition onSettled (p : poller) : poller :=
  {| isProcessing := false; inFlight := Nat.pred (inFlight p);
     started := started p |}.

Inductive step : poller -> event -> poller -> Prop :=
| step_tick p : step p Tick (onTick p)
| step_settled p : 0 < inFlight p -> step p Settled (onSettled p).

Definition idle : poller := {| isProcessing := false; inFlight := 0; started := 0 |}.

Inductive reachable : poller -> Prop :=
| reach_idle : reachable idle
| reach_step p e q : reachable p -> step p e q -> reachable q.

(** ** Notions used by the statements *)

Section FeedDef.

Variable St : Type.
Variable forLine : St -> jsstring -> run St.

(** One iteration of the read loop per decoded chunk: what it does to
    [partialLine] and to the rest of the state. *)
Fixpoint feed (partial : jsstring) (texts : list jsstring) (s : St)
    : run (jsstring * St) :=
  match texts with
  | [] => Returns (partial, s)
  | x :: texts' =>
      let lines := split LF (partial ++ x) in
      match forLines forLine (removelast lines) s with
      | Returns s' => feed (last lines []) texts' s'
      | Hangs s' => Hangs (last lines [], s')
      end
  end.

End FeedDef.

Arguments feed {St} forLine partial texts s.

(** A content of ASCII bytes only. *)
Definition isAscii (content : file) : Prop :=
  Forall (fun b => (Byte.to_N b < 128)%N) content.

(** No chunk boundary falls inside a multi-byte sequence: decoding the
    chunks one by one gives the text of the whole content. *)
Definition chunkwiseDecodable (n : nat) (content : file) : Prop :=
  concat (map Buffer_toString (chunks n content)) = Buffer_toString content.

(** A sequence of read passes, each on the content the file has then. The
    poll loop starts a pass when the one before has returned; after a pass
    that hangs, [isProcessing] stays set and no other pass starts. *)
Definition passes (readFile : state -> file -> run state) (st : state)
    (contents : list file) : run state :=
  fold_left (fun r content => andThen r (fun st => readFile st content))
            contents (Returns st).

(** The number of records in each send made so far. *)
Definition sendSizes (p : pipeline) : list nat :=
  map (fun '(b, _) => length b) (sends p).

(** The texts that are ["true"] up to the case of each letter. *)
Definition isTrueText (v : jsstring) : Prop :=
  match v with
  | [a; b; c; d] =>
      (a = 116 \/ a = 84)%N /\ (b = 114 \/ b = 82)%N /\
      (c = 117 \/ c = 85)%N /\ (d = 101 \/ d = 69)%N
  | _ => False
  end.

(** [Math.pow(10, n)] is exact where [10 ^ n] is a binary64 value. *)
Definition exactOnPowersOfTen (pow : number -> number -> number) : Prop :=
  forall n : Z, (0 <= n <= 22)%Z -> pow (ofZ 10) (ofZ n) = ofZ (10 ^ n).

(** The exact value of the decimal [i.f * 10 ^ e] for [e] at least the
    number of digits of [f]. *)
Definition exactScientific (i f : jsstring) (e : Z) : Z :=
  (decimalValue (i ++ f) * 10 ^ (e - Z.of_nat (length f)))%Z.

(** ** A concrete agent and concrete inputs *)

(** A [Math.pow] that is exact on the natural powers of an integer. *)
Definition exactPow (x y : number) : number :=
  match integerOf x, integerOf y with
  | Some b, Some n => if (0 <=? n)%Z then ofZ (b ^ n) else NaN
  | _, _ => NaN
  end.

(** The parser of the examples. The CSV library is not part of the
    repository, and the theorems hold for every parser; the examples are
    files of decimal digits, delimiters and line feeds, and this parser
    says what [parseCsvRow] does with the lines of such files: a line with
    one field per header is fulfilled with the row of its fields; a line
    with another number of fields, and the empty line, bring neither a
    [data] nor an [error] event under [strictColumnHandling], so that the
    promise stays pending. A line that holds any other character (a quote,
    a carriage return, a blank, ...) is read by the library under rules of
    its own, which are not modelled: no example contains one, and this
    parser leaves it pending. *)
Definition digitRows (headers : list key) (delimiter : jschar)
    (line : jsstring) : promise row :=
  let fields := split delimiter line in
  match line with
  | [] => Pending
  | _ :: _ =>
      if forallb (fun c => isDigit c || N.eqb c delimiter) line
         && (length fields =? length headers)
      then Fulfilled (combine headers fields) else Pending
  end.

(** [1024 * 64], the default of [CONFIG.chunkSize]. *)
Definition defaultChunkSize : nat := 1024 * 64.

Definition alwaysUp : nat -> bool := fun _ => true.

(** The schema [A -> a : int, B -> b : int, C -> c : int], comma-separated,
    with the default batch size. *)
Definition abc (chunk : nat) (bus : nat -> bool) : agent :=
  {| Math_pow := exactPow;
     HEADER_MAPPING := [(key_of "A", key_of "a"); (key_of "B", key_of "b");
                        (key_of "C", key_of "c")];
     FIELD_TYPES := [(key_of "A", TInt); (key_of "B", TInt); (key_of "C", TInt)];
     chunkSize := chunk;
     batchSize := 1000;
     parseCsvRow := digitRows [key_of "A"; key_of "B"; key_of "C"] 44%N;
     randomUUID := fun n => lit "uuid-" ++ BigInt_toString (Z.of_nat n);
     producer_send := bus |}.

(** The contents ["1,2,3\n4,5"] (one complete line and a fragment),
    ["1,2,3\n"] and ["1,2,3\n4,5,6\n"]. *)
Definition partialAtEof : file := bytes "1,2,3" ++ [x0a] ++ bytes "4,5".
Definition oneLine : file := bytes "1,2,3" ++ [x0a].
Definition twoLines : file := bytes "1,2,3" ++ [x0a] ++ bytes "4,5,6" ++ [x0a].

(** The content of the bytes [C3 A9 0A]: the letter e-acute and a line feed. *)
Definition eAcuteLine : file := [xc3; xa9; x0a].

(** A state whose stored offset, 10, lies beyond the end of [oneLine]. *)
Definition beyondEnd : state := boot (Some 10).


(** A row of the schema [abc] whose first field is not a number. *)
Definition rowAbc : row :=
  [(key_of "A", lit "abc"); (key_of "B", lit "2"); (key_of "C", lit "3")].

(** ** Further notions used by the statements *)

(** [FIELD_TYPES[csvHeader] || "str"]. *)
Definition fieldType (FIELD_TYPES : object ftype) (csvHeader : key) : ftype :=
  match get csvHeader FIELD_TYPES with
  | Some t => t
  | None => TStr
  end.

(** The keys of an object, in order. *)
Definition keys {V : Type} (o : object V) : list key := map fst o.

(** A row of the schema [abc] that lacks the column [C]. *)
Definition rowAb : row := [(key_of "A", lit "7"); (key_of "B", lit "x")].

(** The records handed to the bus so far or waiting in [batch], in order. *)
Definition attempted (p : pipeline) : list record :=
  concat (map fst (sends p)) ++ batch p.

(** The records of the lines whose promise is fulfilled, in order, up to
    the first line whose promise stays pending; the first record takes the
    UUID of index [k]. *)
Fixpoint mappedFrom (A : agent) (k : nat) (lines : list jsstring) : list record :=
  match lines with
  | [] => []
  | line :: rest =>
      match parseCsvRow A line with
      | Fulfilled parsed =>
          mapRow (Math_pow A) (HEADER_MAPPING A) (FIELD_TYPES A)
                 (randomUUID A k) parsed :: mappedFrom A (S k) rest
      | Rejected => mappedFrom A k rest
      | Pending => []
      end
  end.

(** The promise of a line settles. *)
Definition settles (A : agent) (line : jsstring) : bool :=
  match parseCsvRow A line with
  | Pending => false
  | _ => true
  end.

(** The lines left when the first one that starts with ["Membr id"] is
    taken out, unless a header was seen before. *)
Fixpoint dataLines (seen : bool) (lines : list jsstring) : list jsstring :=
  match lines with
  | [] => []
  | line :: rest =>
      if negb seen && startsWith line (lit "Membr id") then rest
      else line :: dataLines seen rest
  end.

(** A pipeline with [headerParsed] set to [b]. *)
Definition withHeader (b : bool) (p : pipeline) : pipeline :=
  {| headerParsed := b; batch := batch p; sends := sends p;
     console := console p; uuids := uuids p |}.

(** An agent with another chunk size. *)
Definition withChunkSize (A : agent) (n : nat) : agent :=
  {| Math_pow := Math_pow A; HEADER_MAPPING := HEADER_MAPPING A;
     FIELD_TYPES := FIELD_TYPES A; chunkSize := n; batchSize := batchSize A;
     parseCsvRow := parseCsvRow A; randomUUID := randomUUID A;
     producer_send := producer_send A |}.

(** The text of an ASCII content. *)
Definition asciiText (content : file) : jsstring := map Byte.to_N content.

(** Two pipelines that differ only in how the records were grouped into
    sends and in what was logged. *)
Definition sameRecords (p q : pipeline) : Prop :=
  headerParsed p = headerParsed q /\ uuids p = uuids q /\
  attempted p = attempted q.

(** The number of rejected lines logged so far. *)
Definition parseErrors (p : pipeline) : nat :=
  length (filter (fun l => match l with ParseError => true | _ => false end)
                 (console p)).

(** The console lines written by [publishBatch]. *)
Definition busLines (p : pipeline) : list logLine :=
  filter (fun l => match l with ParseError => false | _ => true end) (console p).

(** What [publishBatch] logs for a send. *)
Definition logOfSend (s : list record * bool) : logLine :=
  if snd s then Published (length (fst s)) else KafkaError.

(** A send size allowed by [batchSize]; a size below 1 acts as 1. *)
Definition withinBatchSize (A : agent) (n : nat) : Prop :=
  1 <= n /\ n <= Nat.max 1 (batchSize A).

(** The file of [partialAtEof] once its second line is completed. *)
Definition completion46 : file := bytes ",6" ++ [x0a].

(** The batch is below its limit and every send was within it. *)
Definition wellBatched (A : agent) (p : pipeline) : Prop :=
  Forall (withinBatchSize A) (sendSizes p) /\
  length (batch p) < Nat.max 1 (batchSize A).

(** The same after a pass, where nothing is left in [batch] if the pass
    returned. *)
Definition betweenPasses (A : agent) (r : run state) : Prop :=
  wellBatched A (pipe (stateOf r)) /\
  (returned r = true -> batch (pipe (stateOf r)) = []).

(** The log of the bus follows the sends. *)
Definition logged (p : pipeline) : Prop :=
  busLines p = map logOfSend (sends p).

(** ** [cleanCsvLine] of the comma-delimited agent *)

(** [s.replace(/,+$/, "")]: the match starts at the leftmost position from
    which the text is a non-empty run of commas up to its end; the regular
    expression has no flag, so [$] is the end of the text and one match is
    replaced. *)
Fixpoint replaceTrailingCommas (s : jsstring) : jsstring :=
  match s with
  | [] => []
  | c :: s' =>
      if N.eqb c 44 && forallb (N.eqb 44) s' then []
      else c :: replaceTrailingCommas s'
  end.

(** [cleanCsvLine(line)]: [line.trim().replace(/,+$/, "")]. *)
Definition cleanCsvLine (line : jsstring) : jsstring :=
  replaceTrailingCommas (trim line).

(** ** Rows of [server.js] *)

(** ToBoolean on the values a row can hold. *)
Definition toBoolean (v : jsval) : bool :=
  match v with
  | JNull => false
  | JBool b => b
  | JNum (S754_zero _) | JNum S754_nan => false
  | JNum _ => true
  | JStr [] => false
  | JStr _ => true
  end.

Module ServerRow.

Section Rows.

Variable Math_pow : number -> number -> number.
Variable HEADER_MAPPING : object key.
Variable FIELD_TYPES : object ftype.

(** [parseRow(csvRow)]: one entry per entry of [FIELD_TYPES]. *)
Definition parseRow (csvRow : row) : record :=
  fold_left
    (fun parsedRow '(header, type) =>
       set header (Server.parseValue Math_pow (get header csvRow) type) parsedRow)
    FIELD_TYPES [].

(** The two branches on [value] in [mapRow]: [undefined] and the empty
    string give the empty string, anything else is [value || null]. *)
Definition orNull (value : option jsval) : jsval :=
  match value with
  | None | Some (JStr []) => JStr []
  | Some v => if toBoolean v then v else JNull
  end.

(** [mapRow(row)] of [server.js], applied to the result of [parseRow]. *)
Definition mapRow (r : record) : record :=
  fold_left
    (fun mapped '(csvHeader, dbField) => set dbField (orNull (get csvHeader r)) mapped)
    HEADER_MAPPING [].

End Rows.

End ServerRow.

(** ** The line-reader agent (third script of [nseFNO.js]) *)

Module Readline.

(** [parseCsvRow(line)]: split on commas, reject a wrong count, trim each
    value. [None] is the thrown error. *)
Definition parseCsvRow (CSV_HEADERS : list key) (line : jsstring) : option row :=
  let values := split 44%N line in
  if negb (length values =? length CSV_HEADERS) then None
  else
    Some (fold_left (fun data '(header, value) => set header (trim value) data)
                    (combine CSV_HEADERS values) []).

(** [mapRow(row)]: [undefined] and the empty string give the empty string,
    any other value is kept. *)
Definition mapRow (HEADER_MAPPING : object key) (r : record) : record :=
  fold_left
    (fun mapped '(csvHeader, dbField) =>
       set dbField
           (match get csvHeader r with
            | None | Some (JStr []) => JStr []
            | Some value => value
            end) mapped)
    HEADER_MAPPING [].

End Readline.

(** The number of commas of a line. *)
Definition commas (line : jsstring) : nat :=
  length (filter (N.eqb 44) line).

(** A schema with a column that [FIELD_TYPES] does not type, as
    [hardcoded_1] in [server.js]. *)
Definition qtyAndTag : object key :=
  [(key_of "qty", key_of "qty"); (key_of "tag", key_of "tag")].
Definition qtyOnly : object ftype := [(key_of "qty", TInt)].
Definition rowQtyTag : row := [(key_of "qty", lit "0"); (key_of "tag", lit "x")].

(** ** The offset file of the agents that switch files *)

Module OffsetStore.

(** The name computed by [loadOffset] and [saveOffset]:
    [`${CONFIG.offsetFilePath}/${currentFilePath.split("/").pop()}.offset`]. *)
Definition offsetFile (offsetFilePath currentFilePath : jsstring) : jsstring :=
  offsetFilePath ++ lit "/" ++ last (split 47%N currentFilePath) [] ++ lit ".offset".

End OffsetStore.

(** * Properties *)

(** ** Splitting *)

Lemma split_nonempty sep s : split sep s <> [].
Proof.
  destruct s as [|c s]; simpl; [discriminate|].
  destruct (N.eqb c sep); [discriminate|].
  destruct (split sep s); discriminate.
Qed.

Lemma removelast_cons2 {X : Type} (a : X) (l : list X) :
  l <> [] -> removelast (a :: l) = a :: removelast l.
Proof. destruct l; [congruence | reflexivity]. Qed.

Lemma last_cons2 {X : Type} (a d : X) (l : list X) :
  l <> [] -> last (a :: l) d = last l d.
Proof. destruct l; [congruence | reflexivity]. Qed.

(** Splitting a concatenation: the complete pieces of the first part, then
    the split of its last fragment followed by the second part. *)
Lemma split_app sep a b :
  split sep (a ++ b) =
  removelast (split sep a) ++ split sep (last (split sep a) [] ++ b).
Proof.
  induction a as [|c a IH]; [reflexivity|].
  pose proof (split_nonempty sep a) as Hne.
  cbn [app split].
  destruct (N.eqb c sep) eqn:Hc.
  - rewrite removelast_cons2, last_cons2 by assumption.
    rewrite IH; reflexivity.
  - rewrite IH.
    destruct (split sep a) as [|h [|h' t]]; [congruence| |].
    + cbn [removelast last app split]. rewrite Hc. reflexivity.
    + cbn [removelast last app]. reflexivity.
Qed.

(** The last fragment of a split holds no separator. *)
Lemma split_last sep s :
  split sep (last (split sep s) []) = [last (split sep s) []].
Proof.
  induction s as [|c s IH]; [reflexivity|].
  pose proof (split_nonempty sep s) as Hne.
  cbn [split].
  destruct (N.eqb c sep) eqn:Hc.
  - rewrite last_cons2 by assumption. exact IH.
  - destruct (split sep s) as [|h [|h' t]]; [congruence| |].
    + cbn [last] in *. cbn [split]. rewrite Hc, IH. reflexivity.
    + exact IH.
Qed.

Lemma removelast_split_app sep a b :
  removelast (split sep (a ++ b)) =
  removelast (split sep a) ++ removelast (split sep (last (split sep a) [] ++ b)).
Proof.
  rewrite split_app, removelast_app by apply split_nonempty. reflexivity.
Qed.

Lemma last_app_nonempty {X : Type} (l l' : list X) d :
  l' <> [] -> last (l ++ l') d = last l' d.
Proof.
  intros Hne. induction l as [|x l IH]; [reflexivity|].
  cbn [app]. rewrite last_cons2; [exact IH|].
  destruct l; [exact Hne | discriminate].
Qed.

Lemma last_split_app sep a b :
  last (split sep (a ++ b)) [] =
  last (split sep (last (split sep a) [] ++ b)) [].
Proof.
  rewrite split_app, last_app_nonempty by apply split_nonempty. reflexivity.
Qed.

(** ** Runs *)

Lemma mapRun_returned {St T : Type} (f : St -> T) (r : run St) :
  returned (mapRun f r) = returned r.
Proof. destruct r; reflexivity. Qed.

Lemma mapRun_stateOf {St T : Type} (f : St -> T) (r : run St) :
  stateOf (mapRun f r) = f (stateOf r).
Proof. destruct r; reflexivity. Qed.

Lemma run_eta {St : Type} (r : run St) :
  r = if returned r then Returns (stateOf r) else Hangs (stateOf r).
Proof. destruct r; reflexivity. Qed.

(** ** The read loop as a fold over decoded chunks *)

Section Feed.

Variable St : Type.
Variable forLine : St -> jsstring -> run St.

Lemma forLines_app l1 : forall l2 s,
  forLines forLine (l1 ++ l2) s
  = andThen (forLines forLine l1 s) (forLines forLine l2).
Proof.
  induction l1 as [|l l1 IH]; intros l2 s; [reflexivity|].
  cbn [app forLines]. destruct (forLine s l) as [s'|s']; [apply IH | reflexivity].
Qed.

(** Chunk by chunk or on the whole text, the [for] body meets the same
    lines in the same order and stops at the same one; when no [await]
    hangs, the fragment left is the text after the last line feed. *)
Lemma feed_concat texts : forall partial s,
  split LF partial = [partial] ->
  mapRun snd (feed forLine partial texts s)
  = forLines forLine (removelast (split LF (partial ++ concat texts))) s /\
  (returned (feed forLine partial texts s) = true ->
   fst (stateOf (feed forLine partial texts s))
   = last (split LF (partial ++ concat texts)) []).
Proof.
  induction texts as [|x texts IH]; intros partial s Hp.
  - cbn [feed concat]. rewrite app_nil_r, Hp. split; reflexivity.
  - cbn [feed concat]. rewrite app_assoc.
    rewrite (last_split_app LF (partial ++ x) (concat texts)).
    rewrite (removelast_split_app LF (partial ++ x) (concat texts)).
    rewrite forLines_app.
    destruct (forLines forLine (removelast (split LF (partial ++ x))) s)
      as [s'|s']; cbn [andThen].
    + apply IH. apply split_last.
    + split; [reflexivity | discriminate].
Qed.

Lemma firstn_min_length {X : Type} n (l : list X) :
  firstn (Nat.min n (length l)) l = firstn n l.
Proof.
  destruct (Nat.le_ge_cases n (length l)) as [H|H].
  - rewrite Nat.min_l by assumption. reflexivity.
  - rewrite Nat.min_r by assumption.
    rewrite firstn_all, firstn_all2 by assumption. reflexivity.
Qed.

Lemma skipn_min_length {X : Type} n (l : list X) :
  skipn (Nat.min n (length l)) l = skipn n l.
Proof.
  destruct (Nat.le_ge_cases n (length l)) as [H|H].
  - rewrite Nat.min_l by assumption. reflexivity.
  - rewrite Nat.min_r by assumption.
    rewrite skipn_all, skipn_all2 by assumption. reflexivity.
Qed.

(** With enough fuel the loop does one iteration per chunk: it runs to the
    end of the content, or hangs inside a chunk with [offset] at the start
    of that chunk. *)
Lemma readLoop_feed n content : 0 < n ->
  forall fuel position partial s,
  position <= length content ->
  length content - position <= fuel ->
  exists pos, position <= pos <= length content /\
  readLoop forLine n fuel content (length content) position partial s =
  match feed forLine partial
             (map Buffer_toString (chunksOf fuel n (skipn position content))) s with
  | Returns (q, s') => Returns (length content, q, s')
  | Hangs (q, s') => Hangs (pos, q, s')
  end.
Proof.
  intros Hn. induction fuel as [|fuel IH]; intros position partial s Hpos Hfuel.
  - exists position. split; [lia|]. cbn. f_equal. f_equal. f_equal. lia.
  - cbn [readLoop].
    destruct (position <? length content) eqn:Hlt.
    + apply Nat.ltb_lt in Hlt.
      set (rest := skipn position content).
      assert (Hrest : length rest = length content - position)
        by (unfold rest; apply length_skipn).
      rewrite <- Hrest.
      rewrite firstn_min_length.
      assert (Hlen : length (firstn n rest) = Nat.min n (length rest))
        by apply length_firstn.
      destruct (length (firstn n rest) =? 0) eqn:Hz.
      { apply Nat.eqb_eq in Hz. lia. }
      assert (Hskip : skipn (position + length (firstn n rest)) content = skipn n rest).
      { rewrite Hlen, Nat.add_comm, <- skipn_skipn.
        change (skipn position content) with rest.
        apply skipn_min_length. }
      destruct rest as [|b rest'] eqn:Hr; [cbn in Hrest; lia|].
      cbn [chunksOf map feed].
      destruct (forLines forLine _ s) as [s'|s'].
      * destruct (IH (position + length (firstn n (b :: rest')))
                     (last (split LF (partial ++ Buffer_toString (firstn n (b :: rest')))) [])
                     s') as [pos [Hb Heq]]; [lia | lia |].
        exists pos. split; [lia|]. rewrite Heq, Hskip. reflexivity.
      * exists position. split; [lia | reflexivity].
    + apply Nat.ltb_ge in Hlt.
      assert (position = length content) by lia. subst position.
      exists (length content). split; [lia|].
      rewrite skipn_all. cbn. reflexivity.
Qed.

End Feed.

(** ** Chunks *)

Lemma concat_chunksOf n : 0 < n -> forall fuel content,
  length content <= fuel -> concat (chunksOf fuel n content) = content.
Proof.
  intros Hn. induction fuel as [|fuel IH]; intros content Hlen.
  - destruct content; [reflexivity | cbn in Hlen; lia].
  - destruct content as [|b content]; [reflexivity|].
    cbn [chunksOf concat]. rewrite IH.
    + apply firstn_skipn.
    + rewrite length_skipn. cbn [length] in *. lia.
Qed.

Lemma Forall_firstn {X : Type} (P : X -> Prop) n : forall l,
  Forall P l -> Forall P (firstn n l).
Proof.
  induction n as [|n IH]; intros l H; [constructor|].
  destruct H; cbn [firstn]; [constructor|].
  constructor; [assumption | apply IH; assumption].
Qed.

Lemma Forall_skipn {X : Type} (P : X -> Prop) n : forall l,
  Forall P l -> Forall P (skipn n l).
Proof.
  induction n as [|n IH]; intros l H; [exact H|].
  destruct H; cbn [skipn]; [constructor | apply IH; assumption].
Qed.

Lemma Forall_chunksOf (P : byte -> Prop) n : forall fuel content,
  Forall P content -> Forall (Forall P) (chunksOf fuel n content).
Proof.
  induction fuel as [|fuel IH]; intros content HP; [constructor|].
  destruct content as [|b content]; [constructor|].
  cbn [chunksOf]. constructor.
  - apply Forall_firstn; assumption.
  - apply IH. apply Forall_skipn; assumption.
Qed.

(** ** Decoding ASCII *)

Lemma utf8Decode_ascii bs :
  Forall (fun b => (b < 128)%N) bs ->
  flat_map utf16 (utf8Decode utf8Start bs) = bs.
Proof.
  induction 1 as [|b bs Hb _ IH]; [reflexivity|].
  cbn [utf8Decode utf8Step utf8Start needed].
  unfold utf8Lead.
  replace (b <=? 0x7F)%N with true by (symmetry; apply N.leb_le; lia).
  cbn [app flat_map]. fold utf8Start. rewrite IH.
  unfold utf16.
  replace (b <? 0x10000)%N with true by (symmetry; apply N.ltb_lt; lia).
  reflexivity.
Qed.

Lemma Buffer_toString_ascii content :
  isAscii content -> Buffer_toString content = map Byte.to_N content.
Proof.
  intros H. unfold Buffer_toString. apply utf8Decode_ascii.
  apply Forall_map. exact H.
Qed.

(** ASCII content decodes chunk by chunk, whatever the chunk size. *)
Lemma ascii_chunkwiseDecodable n content :
  0 < n -> isAscii content -> chunkwiseDecodable n content.
Proof.
  intros Hn Hascii. unfold chunkwiseDecodable, chunks.
  rewrite (Buffer_toString_ascii _ Hascii).
  pose proof (Forall_chunksOf _ n (length content) content Hascii) as Hall.
  pose proof (concat_chunksOf n Hn (length content) content (le_n _)) as Hcat.
  replace (map Byte.to_N content)
    with (map Byte.to_N (concat (chunksOf (length content) n content)))
    by (f_equal; exact Hcat).
  rewrite concat_map. f_equal.
  clear Hcat.
  induction Hall as [|c cs Hc _ IH]; [reflexivity|].
  cbn [map]. rewrite IH, (Buffer_toString_ascii _ Hc). reflexivity.
Qed.

(** ** Lines of the chunked loop *)

Lemma forLines_collect (lines : list jsstring) : forall seen,
  forLines (fun seen line => Returns (seen ++ [line])) lines seen
  = Returns (seen ++ lines).
Proof.
  induction lines as [|l lines IH]; intros seen; cbn [forLines].
  - rewrite app_nil_r. reflexivity.
  - rewrite IH, <- app_assoc. reflexivity.
Qed.

(** What the loop emits from any position: the complete lines of the old
    fragment followed by the chunk texts, and their last fragment. *)
Lemma emittedLines_texts n content k partial :
  0 < n -> k <= length content -> split LF partial = [partial] ->
  emittedLines n content k partial =
  (removelast (split LF (partial ++ concat (map Buffer_toString
       (chunksOf (length content - k) n (skipn k content))))),
   last (split LF (partial ++ concat (map Buffer_toString
       (chunksOf (length content - k) n (skipn k content))))) []).
Proof.
  intros Hn Hk Hp. unfold emittedLines.
  destruct (readLoop_feed (list jsstring) (fun seen line => Returns (seen ++ [line]))
              n content Hn (length content - k) k partial [] Hk (le_n _))
    as [pos [_ Heq]].
  rewrite Heq. clear Heq.
  destruct (feed_concat (list jsstring) (fun seen line => Returns (seen ++ [line]))
              (map Buffer_toString (chunksOf (length content - k) n (skipn k content)))
              partial [] Hp) as [F1 F2].
  rewrite forLines_collect in F1. cbn [app] in F1.
  destruct (feed _ partial _ []) as [[q seen]|[q seen]]; cbn in F1;
    [|discriminate F1].
  injection F1 as F1. specialize (F2 eq_refl). cbn in F2.
  cbn [stateOf]. rewrite F1, F2. reflexivity.
Qed.

(** What the loop emits from position 0 with an empty [partialLine]: the
    complete lines of the chunk texts put end to end, and their last
    fragment. *)
Lemma emittedLines_concat n content : 0 < n ->
  emittedLines n content 0 [] =
  (removelast (split LF (concat (map Buffer_toString (chunks n content)))),
   last (split LF (concat (map Buffer_toString (chunks n content)))) []).
Proof.
  intros Hn. rewrite emittedLines_texts by (assumption || lia || reflexivity).
  rewrite Nat.sub_0_r, skipn_0. reflexivity.
Qed.

(** C3, as the code has it: for every content and every positive chunk size
    such that no chunk boundary falls inside a multi-byte UTF-8 sequence,
    which is the case of every ASCII content, the lines emitted by the
    chunked loop are, in order, the complete lines of the content read at
    once, and the fragment kept in [partialLine] is the text after the last
    line terminator. *)
Theorem chunked_lines_eq_whole_lines n content :
  0 < n ->
  (isAscii content -> chunkwiseDecodable n content) /\
  (chunkwiseDecodable n content ->
   fst (emittedLines n content 0 []) = wholeFileLines content /\
   snd (emittedLines n content 0 []) = last (split LF (Buffer_toString content)) []).
Proof.
  intros Hn. split.
  - apply ascii_chunkwiseDecodable. exact Hn.
  - intros Hdec. rewrite emittedLines_concat by assumption.
    unfold chunkwiseDecodable in Hdec. rewrite Hdec. split; reflexivity.
Qed.

(** Witness of C3: an ASCII content with boundaries on a line ending and
    inside lines, chunk size 2. *)
Lemma chunked_lines_eq_whole_lines_witness :
  fst (emittedLines 2 partialAtEof 0 []) = wholeFileLines partialAtEof /\
  snd (emittedLines 2 partialAtEof 0 []) =
    last (split LF (Buffer_toString partialAtEof)) [].
Proof.
  destruct (chunked_lines_eq_whole_lines 2 partialAtEof) as [Hascii Heq].
  - lia.
  - apply Heq, Hascii.
    unfold isAscii, partialAtEof, bytes. cbn.
    repeat (apply Forall_cons; [reflexivity|]). apply Forall_nil.
Defined.

(** C3 as stated fails: with chunks of one byte the two bytes of e-acute
    are decoded apart, and the line emitted is two replacement characters. *)
Lemma chunked_lines_counterexample :
  fst (emittedLines 1 eAcuteLine 0 []) = [[REPLACEMENT; REPLACEMENT]] /\
  wholeFileLines eAcuteLine = [[233%N]] /\
  fst (emittedLines 1 eAcuteLine 0 []) <> wholeFileLines eAcuteLine.
Proof.
  repeat split; try (vm_compute; reflexivity).
  vm_compute. discriminate.
Qed.

(** ** Read passes *)

Section Passes.

Variable A : agent.
Variable forLine : pipeline -> jsstring -> run pipeline.

Lemma readLoop_position_ge (St : Type) (f : St -> jsstring -> run St) n content size :
  forall fuel position partial s,
  position <= fst (fst (stateOf (readLoop f n fuel content size position partial s))).
Proof.
  induction fuel as [|fuel IH]; intros position partial s; [cbn; lia|].
  cbn [readLoop].
  destruct (position <? size); [|cbn; lia].
  destruct (_ =? 0); [cbn; lia|].
  destruct (forLines f _ s) as [s'|s']; [|cbn; lia].
  etransitivity; [|apply IH]. lia.
Qed.

(** A pass that finds bytes beyond the stored offset: it returns with
    [offset] at the end of the file, after [publishBatch] and
    [saveOffset], or it hangs inside a chunk with nothing saved. *)
Lemma readFileWith_feed st content :
  0 < chunkSize A -> offset st < length content ->
  exists pos, offset st <= pos <= length content /\
  readFileWith A forLine st content =
  match feed forLine (partialLine st)
             (map Buffer_toString
                  (chunksOf (length content - offset st) (chunkSize A)
                            (skipn (offset st) content))) (pipe st) with
  | Returns (q, p) =>
      Returns {| offset := length content; partialLine := q;
                 pipe := publishBatch A p; offsetFile := Some (length content) |}
  | Hangs (q, p) =>
      Hangs {| offset := pos; partialLine := q; pipe := p;
               offsetFile := offsetFile st |}
  end.
Proof.
  intros Hn Hlt. unfold readFileWith.
  destruct (length content =? offset st) eqn:He; [apply Nat.eqb_eq in He; lia|].
  destruct (readLoop_feed pipeline forLine (chunkSize A) content Hn
              (length content - offset st) (offset st) (partialLine st) (pipe st))
    as [pos [Hb Heq]]; [lia | lia |].
  exists pos. split; [exact Hb|]. rewrite Heq.
  destruct (feed forLine _ _ _) as [[q p]|[q p]]; reflexivity.
Qed.

(** A pass that returns after reading ends at the end of the file, with
    that position saved and an empty batch. *)
Lemma readFileWith_returned st content :
  0 < chunkSize A -> offset st < length content ->
  returned (readFileWith A forLine st content) = true ->
  offset (stateOf (readFileWith A forLine st content)) = length content /\
  offsetFile (stateOf (readFileWith A forLine st content)) = Some (length content) /\
  batch (pipe (stateOf (readFileWith A forLine st content))) = [].
Proof.
  intros Hn Hlt. destruct (readFileWith_feed st content Hn Hlt) as [pos [_ Heq]].
  rewrite Heq. destruct (feed forLine _ _ _) as [[q p]|[q p]]; cbn.
  - intros _. split; [reflexivity | split; [reflexivity|]].
    unfold publishBatch. destruct (batch p) eqn:Hb; [exact Hb | reflexivity].
  - discriminate.
Qed.

(** A pass that hangs has saved nothing. *)
Lemma readFileWith_hangs st content :
  returned (readFileWith A forLine st content) = false ->
  offsetFile (stateOf (readFileWith A forLine st content)) = offsetFile st.
Proof.
  unfold readFileWith. destruct (length content =? offset st); [discriminate|].
  destruct (readLoop _ _ _ _ _ _ _ _) as [[[position partial] p]|[[position partial] p]];
    [discriminate | reflexivity].
Qed.

(** No pass moves [offset] or the saved offset backwards, and the saved
    offset never runs ahead of [offset]. *)
Lemma readFileWith_monotone st content :
  loadOffset st <= offset st ->
  let st' := stateOf (readFileWith A forLine st content) in
  offset st <= offset st' /\
  loadOffset st <= loadOffset st' /\
  loadOffset st' <= offset st'.
Proof.
  intros Hinv. unfold readFileWith.
  destruct (length content =? offset st); [cbn; lia|].
  pose proof (readLoop_position_ge _ forLine (chunkSize A) content
                (length content) (length content - offset st) (offset st)
                (partialLine st) (pipe st)) as Hge.
  destruct (readLoop _ _ _ _ _ _ _ _) as [[[position partial] p]|[[position partial] p]];
    unfold loadOffset, saveOffset in *; cbn in *; lia.
Qed.

(** An invariant of the state that every pass keeps holds after any
    sequence of passes, whether or not one of them hangs. *)
Lemma passes_keep (I : state -> Prop)
    (Hr : forall st content, I st -> I (stateOf (readFileWith A forLine st content)))
    contents :
  forall r, I (stateOf r) ->
  I (stateOf (fold_left (fun r content =>
                           andThen r (fun st => readFileWith A forLine st content))
                        contents r)).
Proof.
  induction contents as [|c contents IH]; intros r H; [exact H|].
  cbn [fold_left]. apply IH.
  destruct r as [st|st]; cbn [andThen stateOf] in *; [apply Hr; exact H | exact H].
Qed.

Lemma passes_invariant saved contents :
  let st := stateOf (passes (readFileWith A forLine) (boot saved) contents) in
  loadOffset st <= offset st.
Proof.
  unfold passes.
  apply (passes_keep (fun st => loadOffset st <= offset st)).
  - intros st content H. apply (readFileWith_monotone st content H).
  - destruct saved; cbn; lia.
Qed.

End Passes.

(** C1, as the code has it: over any sequence of read passes the saved
    offset never decreases; a pass that finds bytes beyond the stored
    offset and returns leaves [offset] and the saved offset at the end of
    the file, the position after the last byte read, whether or not that
    byte ends a line; a pass that hangs at a promise that stays pending
    saves nothing. On ["1,2,3\n4,5"] the pass returns with exactly one
    record mapped, saves 9, and keeps ["4,5"] in [partialLine]; when the
    file grows to ["1,2,3\n4,5,6\n"] the next pass completes that fragment
    into a second record. *)
Theorem saved_offset_is_read_position A saved contents content :
  0 < chunkSize A ->
  let st := stateOf (passes (Index2.readFile A) (boot saved) contents) in
  let r := Index2.readFile A st content in
  let st' := stateOf r in
  loadOffset st <= loadOffset st' /\
  (offset st < length content -> returned r = true ->
   offset st' = length content /\ offsetFile st' = Some (length content)) /\
  (returned r = false -> offsetFile st' = offsetFile st) /\
  (let r1 := Index2.readFile (abc defaultChunkSize alwaysUp) (boot None) partialAtEof in
   let e := stateOf r1 in
   let r2 := Index2.readFile (abc defaultChunkSize alwaysUp) e twoLines in
   let e' := stateOf r2 in
   returned r1 = true /\
   uuids (pipe e) = 1 /\ sendSizes (pipe e) = [1] /\
   offsetFile e = Some 9 /\ partialLine e = lit "4,5" /\
   returned r2 = true /\
   uuids (pipe e') = 2 /\ sendSizes (pipe e') = [1; 1] /\
   offsetFile e' = Some 12 /\ partialLine e' = []).
Proof.
  intros Hn st r st'. split; [|split; [|split]].
  - apply (readFileWith_monotone A (Index2.forLine A) st content).
    apply (passes_invariant A (Index2.forLine A)).
  - intros Hlt Hret.
    destruct (readFileWith_returned A (Index2.forLine A) st content Hn Hlt Hret)
      as [H1 [H2 _]].
    split; [exact H1 | exact H2].
  - apply (readFileWith_hangs A (Index2.forLine A)).
  - vm_compute. repeat split; reflexivity.
Qed.

(** Witness of C1: two passes on a growing file, chunks of four bytes. *)
Lemma saved_offset_is_read_position_witness :
  let A := abc 4 alwaysUp in
  let st := stateOf (passes (Index2.readFile A) (boot None) [oneLine]) in
  let r := Index2.readFile A st twoLines in
  let st' := stateOf r in
  loadOffset st <= loadOffset st' /\
  offset st' = length twoLines /\ offsetFile st' = Some (length twoLines).
Proof.
  intros A st r st'.
  pose proof (saved_offset_is_read_position A None [oneLine] twoLines) as H.
  cbv zeta in H. destruct H as [H1 [H2 _]].
  - vm_compute. lia.
  - split; [exact H1 | apply H2].
    + vm_compute. lia.
    + vm_compute. reflexivity.
Defined.

(** C1 as stated fails: after the pass on ["1,2,3\n4,5"] the saved offset
    is 9, the size of the file, not 6, the position after the terminator of
    the one line that was mapped. *)
Lemma saved_offset_counterexample :
  let r := Index2.readFile (abc defaultChunkSize alwaysUp) (boot None) partialAtEof in
  let e := stateOf r in
  returned r = true /\
  uuids (pipe e) = 1 /\
  length oneLine = 6 /\
  firstn 6 partialAtEof = oneLine /\
  offsetFile e = Some 9 /\
  offsetFile e <> Some (length oneLine).
Proof.
  vm_compute. repeat split; try reflexivity. discriminate.
Qed.

(** ** A file shorter than the stored offset *)

(** C2, as the code has it: when the file is shorter than the stored
    offset, [readFile] (of [index2.js] and of [nseFNO.js] alike) runs no
    iteration of its loop and returns: [offset] and [partialLine] stay as
    they are, no line is handed to the parser, only the closing
    [publishBatch] and [saveOffset(offset)] run, and with an empty batch
    nothing is logged. *)
Theorem shorter_file_reads_nothing A st content :
  length content < offset st ->
  (let r := Index2.readFile A st content in
   let st' := stateOf r in
   returned r = true /\
   offset st' = offset st /\ partialLine st' = partialLine st /\
   pipe st' = publishBatch A (pipe st) /\ offsetFile st' = Some (offset st) /\
   (batch (pipe st) = [] -> pipe st' = pipe st)) /\
  (let r := NseFNO.readFile A st content in
   let st' := stateOf r in
   returned r = true /\
   offset st' = offset st /\ partialLine st' = partialLine st /\
   pipe st' = publishBatch A (pipe st) /\ offsetFile st' = Some (offset st) /\
   (batch (pipe st) = [] -> pipe st' = pipe st)).
Proof.
  intros Hlt.
  assert (Hfuel : length content - offset st = 0) by lia.
  assert (Hne : (length content =? offset st) = false) by (apply Nat.eqb_neq; lia).
  unfold Index2.readFile, NseFNO.readFile, readFileWith. rewrite Hne, Hfuel. cbn.
  repeat split; try reflexivity;
    intros Hb; unfold publishBatch; rewrite Hb; reflexivity.
Qed.

(** Witness of C2: the stored offset is 10 and the file holds six bytes. *)
Lemma shorter_file_reads_nothing_witness :
  let A := abc defaultChunkSize alwaysUp in
  (let r := Index2.readFile A beyondEnd oneLine in
   let st' := stateOf r in
   returned r = true /\
   offset st' = offset beyondEnd /\ partialLine st' = partialLine beyondEnd /\
   pipe st' = publishBatch A (pipe beyondEnd) /\
   offsetFile st' = Some (offset beyondEnd) /\
   (batch (pipe beyondEnd) = [] -> pipe st' = pipe beyondEnd)) /\
  (let r := NseFNO.readFile A beyondEnd oneLine in
   let st' := stateOf r in
   returned r = true /\
   offset st' = offset beyondEnd /\ partialLine st' = partialLine beyondEnd /\
   pipe st' = publishBatch A (pipe beyondEnd) /\
   offsetFile st' = Some (offset beyondEnd) /\
   (batch (pipe beyondEnd) = [] -> pipe st' = pipe beyondEnd)).
Proof.
  intros A.
  apply (shorter_file_reads_nothing A beyondEnd oneLine).
  vm_compute. lia.
Defined.

(** C2 as stated fails: with a stored offset of 10 and a file of six bytes
    holding one complete line, the pass leaves [offset] at 10, maps no
    record and logs nothing, where a read from offset 0 maps one record and
    ends at 6. *)
Lemma shorter_file_counterexample :
  let A := abc defaultChunkSize alwaysUp in
  let st' := stateOf (Index2.readFile A beyondEnd oneLine) in
  let fresh := stateOf (Index2.readFile A (boot (Some 0)) oneLine) in
  length oneLine < offset beyondEnd /\
  offset st' = 10 /\ uuids (pipe st') = 0 /\ sends (pipe st') = [] /\
  console (pipe st') = [] /\
  offset fresh = 6 /\ uuids (pipe fresh) = 1 /\
  offset st' <> offset fresh.
Proof.
  vm_compute. repeat split; try reflexivity; lia.
Qed.

(** ** Publishing *)

Lemma publishBatch_empties A p : batch (publishBatch A p) = [].
Proof.
  unfold publishBatch. destruct (batch p) eqn:Hb; [exact Hb | reflexivity].
Qed.



(** ** The poll loop *)

Lemma reachable_guard p :
  reachable p -> inFlight p = if isProcessing p then 1 else 0.
Proof.
  induction 1 as [|p e q Hp IH Hstep]; [reflexivity|].
  destruct Hstep as [p | p Hrun].
  - unfold onTick. destruct (isProcessing p) eqn:Hb.
    + rewrite Hb. exact IH.
    + cbn. rewrite IH. reflexivity.
  - cbn. rewrite IH in *. destruct (isProcessing p); [reflexivity | lia].
Qed.

(** C8: in every state the poll loop can reach, at most one [readFile]
    pass is in flight, and one is in flight exactly while [isProcessing]
    is set; a tick that fires then changes nothing: no pass is started and
    nothing is recorded for later, so that when the pass settles none is
    in flight until the next tick. *)
Theorem tick_during_pass_is_skipped p :
  reachable p ->
  inFlight p <= 1 /\
  (isProcessing p = true <-> inFlight p = 1) /\
  (isProcessing p = true -> onTick p = p) /\
  (forall q, step p Tick q -> inFlight q = 1 /\ started q <= S (started p)) /\
  (forall q, step p Settled q -> inFlight q = 0 /\ isProcessing q = false).
Proof.
  intros Hr. pose proof (reachable_guard p Hr) as Hg.
  repeat split.
  - destruct (isProcessing p); lia.
  - intros Hb. rewrite Hb in Hg. exact Hg.
  - intros H1. destruct (isProcessing p); [reflexivity | lia].
  - intros Hb. unfold onTick. rewrite Hb. reflexivity.
  - inversion H; subst. unfold onTick.
    destruct (isProcessing p); cbn; lia.
  - inversion H; subst. unfold onTick.
    destruct (isProcessing p); cbn; lia.
  - inversion H; subst. cbn. destruct (isProcessing p); lia.
  - inversion H; subst. reflexivity.
Qed.

(** Witness of C8: the state after the first tick. *)
Lemma tick_during_pass_is_skipped_witness :
  let p := onTick idle in
  inFlight p <= 1 /\
  (isProcessing p = true <-> inFlight p = 1) /\
  (isProcessing p = true -> onTick p = p) /\
  (forall q, step p Tick q -> inFlight q = 1 /\ started q <= S (started p)) /\
  (forall q, step p Settled q -> inFlight q = 0 /\ isProcessing q = false).
Proof.
  intros p.
  apply (tick_during_pass_is_skipped p).
  apply (reach_step idle Tick p reach_idle (step_tick idle)).
Defined.

(** ** Digits *)

Lemma isDigit_cases c :
  isDigit c = true ->
  (c = 48 \/ c = 49 \/ c = 50 \/ c = 51 \/ c = 52 \/
   c = 53 \/ c = 54 \/ c = 55 \/ c = 56 \/ c = 57)%N.
Proof.
  unfold isDigit. intros H. apply andb_prop in H. destruct H as [H1 H2].
  apply N.leb_le in H1. apply N.leb_le in H2. lia.
Qed.

Ltac digit_cases H :=
  apply isDigit_cases in H;
  destruct H as [->|[->|[->|[->|[->|[->|[->|[->|[->| ->]]]]]]]]].

Lemma digit_not_space c : isDigit c = true -> isWhiteSpace c = false.
Proof. intros H. digit_cases H; reflexivity. Qed.

Lemma digit_takeSign c s : isDigit c = true -> takeSign (c :: s) = (false, c :: s).
Proof. intros H. digit_cases H; reflexivity. Qed.

Lemma uintOfDigits_digitsOfUint u : uintOfDigits (digitsOfUint u) = u.
Proof. induction u; cbn; rewrite ?IHu; reflexivity. Qed.

Lemma digitsOfUint_digits u : forallb isDigit (digitsOfUint u) = true.
Proof. induction u; cbn; rewrite ?IHu; reflexivity. Qed.

Lemma decimalValue_nonneg ds : (0 <= decimalValue ds)%Z.
Proof. unfold decimalValue, Z.of_uint. apply N2Z.is_nonneg. Qed.

(** The canonical digits of a natural number denote it. *)
Lemma decimalValue_toString z :
  (0 <= z)%Z -> decimalValue (BigInt_toString z) = z.
Proof.
  intros Hz. unfold decimalValue, BigInt_toString.
  pose proof (DecimalZ.of_to z) as Hrt.
  destruct z as [|p|p]; [reflexivity| |lia].
  cbn [Z.to_int] in *. rewrite uintOfDigits_digitsOfUint. exact Hrt.
Qed.

(** The canonical text of a BigInt: decimal digits, after a minus sign for
    a negative one; no point, no exponent. *)
Lemma BigInt_toString_digits z :
  exists ds, ds <> [] /\ forallb isDigit ds = true /\
             BigInt_toString z = (if (z <? 0)%Z then [45%N] else []) ++ ds.
Proof.
  unfold BigInt_toString. destruct z as [|p|p]; cbn [Z.to_int Z.ltb Z.compare].
  - exists [48%N]. repeat split. discriminate.
  - exists (digitsOfUint (Pos.to_uint p)). repeat split.
    + pose proof (DecimalPos.Unsigned.to_uint_nonnil p) as Hn.
      destruct (Pos.to_uint p); cbn; congruence.
    + apply digitsOfUint_digits.
  - exists (digitsOfUint (Pos.to_uint p)). repeat split.
    + pose proof (DecimalPos.Unsigned.to_uint_nonnil p) as Hn.
      destruct (Pos.to_uint p); cbn; congruence.
    + apply digitsOfUint_digits.
Qed.

Lemma dropWhile_head p c s : p c = false -> dropWhile p (c :: s) = c :: s.
Proof. intros H. cbn. rewrite H. reflexivity. Qed.

Lemma forallb_rev (p : jschar -> bool) s : forallb p (rev s) = forallb p s.
Proof.
  induction s as [|c s IH]; [reflexivity|].
  cbn [rev forallb]. rewrite forallb_app, IH. cbn. rewrite andb_true_r.
  apply andb_comm.
Qed.

Lemma trimStart_digits ds s :
  ds <> [] -> forallb isDigit ds = true -> trimStart (ds ++ s) = ds ++ s.
Proof.
  intros Hne Hd. destruct ds as [|c ds]; [congruence|].
  cbn [forallb] in Hd. apply andb_prop in Hd. destruct Hd as [Hc _].
  apply dropWhile_head, digit_not_space, Hc.
Qed.

Lemma trim_digits ds :
  ds <> [] -> forallb isDigit ds = true -> trim ds = ds.
Proof.
  intros Hne Hd. unfold trim.
  rewrite <- (app_nil_r ds) at 1. rewrite trimStart_digits, app_nil_r by assumption.
  unfold trimEnd.
  assert (Hr : forallb isDigit (rev ds) = true) by (rewrite forallb_rev; exact Hd).
  destruct (rev ds) as [|c r] eqn:Hrev.
  - apply (f_equal (@rev jschar)) in Hrev. rewrite rev_involutive in Hrev.
    cbn in Hrev. congruence.
  - cbn [forallb] in Hr. apply andb_prop in Hr. destruct Hr as [Hc _].
    rewrite dropWhile_head by (apply digit_not_space, Hc).
    rewrite <- Hrev. apply rev_involutive.
Qed.

Lemma includes_digits ds c :
  isDigit c = false -> forallb isDigit ds = true -> includes ds [c] = false.
Proof.
  intros Hc. induction ds as [|d ds IH]; intros Hd; [reflexivity|].
  cbn [forallb] in Hd. apply andb_prop in Hd. destruct Hd as [Hd1 Hd2].
  cbn [includes startsWith]. rewrite (IH Hd2).
  destruct (N.eqb c d) eqn:He; [|reflexivity].
  apply N.eqb_eq in He. subst d. congruence.
Qed.

Lemma nonDecimalLiteral_digits ds :
  forallb isDigit ds = true -> nonDecimalLiteral ds = None.
Proof.
  intros Hd. destruct ds as [|c [|p [|q ds]]]; try reflexivity.
  cbn [forallb] in Hd.
  apply andb_prop in Hd. destruct Hd as [_ Hd].
  apply andb_prop in Hd. destruct Hd as [Hp _].
  unfold nonDecimalLiteral.
  digit_cases Hp; cbn; destruct (N.eqb c 48); reflexivity.
Qed.

Lemma takeWhile_digits ds s :
  forallb isDigit ds = true ->
  match s with [] => True | c :: _ => isDigit c = false end ->
  takeWhile isDigit (ds ++ s) = ds.
Proof.
  intros Hd Hs. induction ds as [|d ds IH].
  - destruct s as [|c s]; [reflexivity|]. cbn. rewrite Hs. reflexivity.
  - cbn [forallb] in Hd. apply andb_prop in Hd. destruct Hd as [Hd1 Hd2].
    cbn [app takeWhile]. rewrite Hd1, (IH Hd2). reflexivity.
Qed.

Lemma dropWhile_digits ds s :
  forallb isDigit ds = true ->
  match s with [] => True | c :: _ => isDigit c = false end ->
  dropWhile isDigit (ds ++ s) = s.
Proof.
  intros Hd Hs. induction ds as [|d ds IH].
  - destruct s as [|c s]; [reflexivity|]. cbn. rewrite Hs. reflexivity.
  - cbn [forallb] in Hd. apply andb_prop in Hd. destruct Hd as [Hd1 Hd2].
    cbn [app dropWhile]. rewrite Hd1. exact (IH Hd2).
Qed.

(** [Number] of a run of decimal digits is the Number of the integer they
    denote. *)
Lemma Number_digits ds :
  ds <> [] -> forallb isDigit ds = true -> Number_ ds = ofZ (decimalValue ds).
Proof.
  intros Hne Hd. unfold Number_. rewrite (trim_digits ds Hne Hd).
  destruct ds as [|c ds'] eqn:Hds; [congruence|]. rewrite <- Hds in *.
  rewrite (nonDecimalLiteral_digits ds Hd).
  unfold scanDecimalLiteral.
  assert (Hc : isDigit c = true)
    by (rewrite Hds in Hd; cbn [forallb] in Hd; apply andb_prop in Hd; tauto).
  rewrite Hds at 1. rewrite (digit_takeSign c ds' Hc). rewrite <- Hds.
  replace (startsWith ds (lit "Infinity")) with false
    by (rewrite Hds; clear - Hc; digit_cases Hc; reflexivity).
  pose proof (takeWhile_digits ds [] Hd I) as Htake.
  pose proof (dropWhile_digits ds [] Hd I) as Hdrop.
  rewrite app_nil_r in Htake, Hdrop. rewrite Htake, Hdrop, app_nil_r.
  rewrite Hds at 1. cbn [length Z.of_nat Z.sub Z.opp]. rewrite <- Hds.
  unfold ofDecimal. pose proof (decimalValue_nonneg ds) as Hnn.
  destruct (decimalValue ds) as [|p|p]; [reflexivity| |lia].
  cbn [Z.leb Z.compare Z.pow]. rewrite Z.mul_1_r. reflexivity.
Qed.

(** ** Texts that keep their ends under [trim], signed exponents *)

Lemma trim_noop c s :
  isWhiteSpace c = false ->
  isWhiteSpace (last (c :: s) c) = false ->
  trim (c :: s) = c :: s.
Proof.
  intros Hc Hl. unfold trim, trimStart. rewrite dropWhile_head by exact Hc.
  unfold trimEnd.
  destruct (rev (c :: s)) as [|d t] eqn:Hrev.
  - apply (f_equal (@rev jschar)) in Hrev. rewrite rev_involutive in Hrev.
    discriminate Hrev.
  - assert (Hd : d = last (c :: s) c).
    { apply (f_equal (@rev jschar)) in Hrev. rewrite rev_involutive in Hrev.
      rewrite Hrev. cbn [rev]. rewrite last_last. reflexivity. }
    rewrite dropWhile_head by (rewrite Hd; exact Hl).
    rewrite <- Hrev. apply rev_involutive.
Qed.

Lemma last_in {X : Type} (l : list X) d : l <> [] -> In (last l d) l.
Proof.
  intros Hne. pose proof (app_removelast_last d Hne) as H.
  rewrite H at 2. apply in_or_app. right. left. reflexivity.
Qed.

Lemma last_digits c ds :
  forallb isDigit (c :: ds) = true -> isDigit (last (c :: ds) c) = true.
Proof.
  intros H. apply (proj1 (forallb_forall isDigit (c :: ds)) H).
  apply last_in. discriminate.
Qed.

(** [Number] of a signed run of decimal digits. *)
Lemma Number_signed_digits (sign : jschar) (ds : jsstring) :
  (sign = 43 \/ sign = 45)%N ->
  ds <> [] -> forallb isDigit ds = true ->
  Number_ (sign :: ds) = ofDecimal (N.eqb sign 45) (decimalValue ds) 0.
Proof.
  intros Hs Hne Hd. unfold Number_.
  destruct ds as [|c ds'] eqn:Hds; [congruence|]. rewrite <- Hds in *.
  assert (Hc : isDigit c = true)
    by (rewrite Hds in Hd; cbn [forallb] in Hd; apply andb_prop in Hd; tauto).
  assert (Htrim : trim (sign :: ds) = sign :: ds).
  { apply trim_noop.
    - destruct Hs as [-> | ->]; reflexivity.
    - apply digit_not_space.
      apply (proj1 (forallb_forall isDigit ds) Hd).
      rewrite Hds. rewrite last_cons2 by discriminate.
      apply last_in. discriminate. }
  rewrite Htrim. cbv beta iota.
  assert (Hnd : nonDecimalLiteral (sign :: ds) = None).
  { unfold nonDecimalLiteral. destruct ds as [|x [|y zs]]; try reflexivity.
    destruct Hs as [-> | ->]; reflexivity. }
  rewrite Hnd. unfold scanDecimalLiteral.
  assert (Hsign : takeSign (sign :: ds) = (N.eqb sign 45, ds))
    by (destruct Hs as [-> | ->]; reflexivity).
  rewrite Hsign.
  replace (startsWith ds (lit "Infinity")) with false
    by (rewrite Hds; clear - Hc; digit_cases Hc; reflexivity).
  pose proof (takeWhile_digits ds [] Hd I) as Htake.
  pose proof (dropWhile_digits ds [] Hd I) as Hdrop.
  rewrite app_nil_r in Htake, Hdrop. rewrite Htake, Hdrop, app_nil_r.
  rewrite Hds at 1. cbn [length Z.of_nat Z.sub Z.opp]. rewrite <- Hds.
  reflexivity.
Qed.

(** ** Integers as Numbers *)

Lemma digits2_pos_bounds m :
  (2 ^ (Zpos (digits2_pos m) - 1) <= Zpos m < 2 ^ Zpos (digits2_pos m))%Z.
Proof.
  induction m as [m IH|m IH|]; cbn [digits2_pos].
  - rewrite Pos2Z.inj_succ.
    replace (Z.succ (Zpos (digits2_pos m)) - 1)%Z
      with (Z.succ (Zpos (digits2_pos m) - 1)) by lia.
    rewrite !Z.pow_succ_r by lia. lia.
  - rewrite Pos2Z.inj_succ.
    replace (Z.succ (Zpos (digits2_pos m)) - 1)%Z
      with (Z.succ (Zpos (digits2_pos m) - 1)) by lia.
    rewrite !Z.pow_succ_r by lia. lia.
  - cbn. lia.
Qed.

Lemma iter_xO_value k : forall m,
  (Zpos (Pos.iter xO m k) = Zpos m * 2 ^ Zpos k)%Z.
Proof.
  induction k as [|k IH] using Pos.peano_ind; intros m.
  - cbn. lia.
  - rewrite Pos.iter_succ, Pos2Z.inj_succ, Z.pow_succ_r by lia.
    rewrite Pos2Z.inj_xO, IH. lia.
Qed.

Lemma iter_xO_digits k : forall m,
  (Zpos (digits2_pos (Pos.iter xO m k)) = Zpos (digits2_pos m) + Zpos k)%Z.
Proof.
  induction k as [|k IH] using Pos.peano_ind; intros m.
  - cbn. lia.
  - rewrite Pos.iter_succ. cbn [digits2_pos]. rewrite !Pos2Z.inj_succ, IH. lia.
Qed.

(** A mantissa of 53 bits is kept as it is. *)
Lemma binary_round_aux_canonical m e :
  Zpos (digits2_pos m) = 53%Z -> (-1074 <= e <= 971)%Z ->
  binary_round_aux 53 1024 false (Zpos m) e loc_Exact = S754_finite false m e.
Proof.
  intros Hd He.
  unfold binary_round_aux, shr_fexp, fexp, emin. cbn [Zdigits2 shr_record_of_loc].
  rewrite Hd.
  replace (Z.max (53 + e - 53) (3 - 1024 - 53) - e)%Z with 0%Z by lia.
  cbn [shr shr_m loc_of_shr_record round_nearest_even Zdigits2 shr_record_of_loc].
  rewrite Hd.
  replace (Z.max (53 + e - 53) (3 - 1024 - 53) - e)%Z with 0%Z by lia.
  cbn [shr shr_m].
  replace (e <=? 1024 - 53)%Z with true by (symmetry; apply Z.leb_le; lia).
  reflexivity.
Qed.

(** Every natural number below [2 ^ 53] is a Number, exactly. *)
Lemma ofZ_exact z :
  (0 <= z < 2 ^ 53)%Z -> integerOf (ofZ z) = Some z.
Proof.
  intros Hz. destruct z as [|m|m]; [reflexivity| |lia].
  pose proof (digits2_pos_bounds m) as Hb.
  assert (Hd : (Zpos (digits2_pos m) <= 53)%Z).
  { destruct (Z.le_gt_cases (Zpos (digits2_pos m)) 53) as [H|H]; [exact H|].
    exfalso.
    assert (2 ^ 53 <= 2 ^ (Zpos (digits2_pos m) - 1))%Z
      by (apply Z.pow_le_mono_r; lia).
    lia. }
  unfold ofZ, binary_normalize, binary_round, fexp, emin.
  replace (Z.max (Zpos (digits2_pos m) + 0 - 53) (3 - 1024 - 53))%Z
    with (Zpos (digits2_pos m) - 53)%Z by lia.
  unfold shl_align.
  destruct (Zpos (digits2_pos m) - 53 - 0)%Z as [|k|k] eqn:Hk; [|lia|].
  - rewrite binary_round_aux_canonical by lia. cbn. f_equal. lia.
  - rewrite binary_round_aux_canonical.
    + unfold integerOf.
      replace (0 <=? Zpos (digits2_pos m) - 53)%Z with false
        by (symmetry; apply Z.leb_gt; lia).
      replace (- (Zpos (digits2_pos m) - 53))%Z with (Zpos k) by lia.
      rewrite iter_xO_value.
      rewrite Z.mod_mul by lia. cbn [Z.eqb option_map].
      rewrite Z.div_mul by lia. reflexivity.
    + rewrite iter_xO_digits. lia.
    + lia.
Qed.

(** The same with a sign. *)
Lemma binary_round_aux_canonical_signed sx m e :
  Zpos (digits2_pos m) = 53%Z -> (-1074 <= e <= 971)%Z ->
  binary_round_aux 53 1024 sx (Zpos m) e loc_Exact = S754_finite sx m e.
Proof.
  intros Hd He.
  unfold binary_round_aux, shr_fexp, fexp, emin. cbn [Zdigits2 shr_record_of_loc].
  rewrite Hd.
  replace (Z.max (53 + e - 53) (3 - 1024 - 53) - e)%Z with 0%Z by lia.
  cbn [shr shr_m loc_of_shr_record round_nearest_even Zdigits2 shr_record_of_loc].
  rewrite Hd.
  replace (Z.max (53 + e - 53) (3 - 1024 - 53) - e)%Z with 0%Z by lia.
  cbn [shr shr_m].
  replace (e <=? 1024 - 53)%Z with true by (symmetry; apply Z.leb_le; lia).
  reflexivity.
Qed.

(** Every integer between [- 2 ^ 53] and [2 ^ 53] is a Number, exactly. *)
Lemma ofZ_exact_signed z :
  (- 2 ^ 53 < z < 2 ^ 53)%Z -> integerOf (ofZ z) = Some z.
Proof.
  intros Hz. destruct z as [|m|m]; [reflexivity|apply ofZ_exact; lia|].
  pose proof (digits2_pos_bounds m) as Hb.
  assert (Hd : (Zpos (digits2_pos m) <= 53)%Z).
  { destruct (Z.le_gt_cases (Zpos (digits2_pos m)) 53) as [H|H]; [exact H|].
    exfalso.
    assert (2 ^ 53 <= 2 ^ (Zpos (digits2_pos m) - 1))%Z
      by (apply Z.pow_le_mono_r; lia).
    lia. }
  unfold ofZ, binary_normalize, binary_round, fexp, emin.
  replace (Z.max (Zpos (digits2_pos m) + 0 - 53) (3 - 1024 - 53))%Z
    with (Zpos (digits2_pos m) - 53)%Z by lia.
  unfold shl_align.
  destruct (Zpos (digits2_pos m) - 53 - 0)%Z as [|k|k] eqn:Hk; [|lia|].
  - rewrite binary_round_aux_canonical_signed by lia. cbn. f_equal. lia.
  - rewrite binary_round_aux_canonical_signed.
    + unfold integerOf.
      replace (0 <=? Zpos (digits2_pos m) - 53)%Z with false
        by (symmetry; apply Z.leb_gt; lia).
      replace (- (Zpos (digits2_pos m) - 53))%Z with (Zpos k) by lia.
      rewrite iter_xO_value.
      rewrite Z.mod_mul by lia. cbn [Z.eqb option_map].
      rewrite Z.div_mul by lia. reflexivity.
    + rewrite iter_xO_digits. lia.
    + lia.
Qed.

(** [Math.round] of a Number with a fraction, [x = ± m * 2 ^ e] with
    [e < 0]: the BigInt constructor accepts the result, which is the
    integer [z] nearest to [x], the upper one when [x] lies half-way:
    [z - 1/2 <= x < z + 1/2]. *)
Lemma Math_round_nearest sx m e :
  (e < 0)%Z -> (Zpos m < 2 ^ 53)%Z ->
  exists z,
    BigInt_of_number (Math_round (S754_finite sx m e)) = Normal z /\
    ((2 * z - 1) * 2 ^ (- e) <= 2 * (if sx then Zneg m else Zpos m)
     < (2 * z + 1) * 2 ^ (- e))%Z.
Proof.
  intros He Hm. unfold Math_round.
  replace (0 <=? e)%Z with false by (symmetry; apply Z.leb_gt; lia).
  set (x := if sx then Z.neg m else Z.pos m).
  assert (Hx : (- 2 ^ 53 < x < 2 ^ 53)%Z) by (unfold x; destruct sx; lia).
  set (P := (2 ^ (- e))%Z).
  assert (HP : (2 <= P)%Z).
  { unfold P. change 2%Z with (2 ^ 1)%Z at 1. apply Z.pow_le_mono_r; lia. }
  assert (HD : (2 ^ (1 - e) = 2 * P)%Z).
  { unfold P. replace (1 - e)%Z with (Z.succ (- e)) by lia.
    apply Z.pow_succ_r. lia. }
  rewrite HD.
  set (r := ((2 * x + P) / (2 * P))%Z).
  assert (Hlo : (2 * P * r <= 2 * x + P)%Z)
    by (unfold r; apply Z.mul_div_le; lia).
  assert (Hhi : (2 * x + P < 2 * P * Z.succ r)%Z)
    by (unfold r; apply Z.mul_succ_div_gt; lia).
  assert (Hr : (- 2 ^ 53 < r < 2 ^ 53)%Z) by nia.
  exists r. split; [|nia].
  unfold BigInt_of_number.
  destruct (r =? 0)%Z eqn:H0.
  - apply Z.eqb_eq in H0. rewrite H0. reflexivity.
  - rewrite (ofZ_exact_signed r Hr). reflexivity.
Qed.

(** ** The coercion layer *)

Lemma exactPow_powers_of_ten : exactOnPowersOfTen exactPow.
Proof.
  intros n Hn.
  replace n with (Z.of_nat (Z.to_nat n)) by lia.
  assert (Hk : Z.to_nat n < 23) by lia.
  generalize dependent (Z.to_nat n). intros k Hk.
  do 23 (destruct k as [|k]; [vm_compute; reflexivity|]).
  lia.
Qed.

Section CoercionFacts.

Variable pow : number -> number -> number.

(** An exponent-free run of digits goes through the BigInt constructor. *)
Lemma parseScientificBigInt_digits ds :
  ds <> [] -> forallb isDigit ds = true ->
  parseScientificBigInt pow ds = Normal (Big (decimalValue ds)).
Proof.
  intros Hne Hd. unfold parseScientificBigInt.
  destruct ds as [|c ds']; [congruence|].
  rewrite (trim_digits _ Hne Hd).
  change (lit "e") with [101%N]. change (lit "E") with [69%N].
  rewrite !includes_digits by (assumption || reflexivity).
  cbn [negb andb]. unfold BigInt_of_string.
  rewrite (trim_digits _ Hne Hd), (nonDecimalLiteral_digits _ Hd).
  rewrite digit_takeSign by (cbn [forallb] in Hd; apply andb_prop in Hd; tauto).
  rewrite Hd. reflexivity.
Qed.

(** The scientific form: split on [e], [parseFloat] of the mantissa,
    [Number] of the exponent, [Math.round] of the product, rendered in
    canonical decimal. *)
Lemma parseValue_scientific v coeff exp rest :
  v <> [] ->
  includes (trim v) (lit "e") || includes (trim v) (lit "E") = true ->
  split 101%N (toLowerCase (trim v)) = coeff :: exp :: rest ->
  parseValue pow (Some v) TBigInt =
  match BigInt_of_number
          (Math_round (times (parseFloat coeff) (pow (ofZ 10) (Number_ exp)))) with
  | Normal z => JStr (BigInt_toString z)
  | Throw _ => JNull
  end.
Proof.
  intros Hne He Hs. unfold parseValue, parseScientificBigInt.
  destruct v as [|c v']; [congruence|].
  apply orb_true_iff in He.
  replace (negb (includes (trim (c :: v')) (lit "e")) &&
           negb (includes (trim (c :: v')) (lit "E"))) with false
    by (destruct He as [-> | ->]; cbn; rewrite ?andb_false_r; reflexivity).
  rewrite Hs. cbv zeta.
  destruct (BigInt_of_number _); reflexivity.
Qed.

(** The literal ["1"] and the texts that fold to ["true"]. *)
Lemma streq_eq a b : streq a b = true <-> a = b.
Proof.
  revert b. induction a as [|x a IH]; intros [|y b]; cbn; try (split; congruence).
  rewrite andb_true_iff, N.eqb_eq, IH. split.
  - intros [-> ->]. reflexivity.
  - intros H. injection H as -> ->. split; reflexivity.
Qed.

Lemma lowerChar_letter a b :
  (97 <= b <= 122)%N -> lowerChar a = b <-> (a = b \/ a = b - 32)%N.
Proof.
  intros Hb. unfold lowerChar.
  destruct (65 <=? a)%N eqn:H1; destruct (a <=? 90)%N eqn:H2; cbn;
    rewrite ?N.leb_le, ?N.leb_gt in *; lia.
Qed.

Lemma toLowerCase_true v : toLowerCase v = lit "true" <-> isTrueText v.
Proof.
  change (lit "true") with [116; 114; 117; 101]%N.
  destruct v as [|a [|b [|c [|d [|e v]]]]]; unfold toLowerCase; cbn [map isTrueText];
    try (split; [discriminate | tauto]).
  split.
  - intros H. injection H as Ha Hb Hc Hd.
    apply lowerChar_letter in Ha, Hb, Hc, Hd; lia.
  - intros [Ha [Hb [Hc Hd]]].
    assert (lowerChar a = 116%N) by (apply lowerChar_letter; lia).
    assert (lowerChar b = 114%N) by (apply lowerChar_letter; lia).
    assert (lowerChar c = 117%N) by (apply lowerChar_letter; lia).
    assert (lowerChar d = 101%N) by (apply lowerChar_letter; lia).
    repeat match goal with E : lowerChar _ = _ |- _ => rewrite E; clear E end.
    reflexivity.
Qed.

(** The boolean coercion of [index2.js] and its siblings: for a non-empty
    text, [true] exactly on ["1"] and on ["true"] in any letter case, and
    [false] otherwise; never [null]. *)
Lemma parseValue_bool v :
  v <> [] ->
  (isTrueText v \/ v = lit "1" -> parseValue pow (Some v) TBool = JBool true) /\
  (~ (isTrueText v \/ v = lit "1") -> parseValue pow (Some v) TBool = JBool false).
Proof.
  intros Hne. destruct v as [|c v']; [congruence|]. cbn [parseValue].
  set (v := c :: v').
  pose proof (toLowerCase_true v) as Ht.
  pose proof (streq_eq (toLowerCase v) (lit "true")) as H1.
  pose proof (streq_eq v (lit "1")) as H2.
  destruct (streq (toLowerCase v) (lit "true")); destruct (streq v (lit "1")); cbn;
    split; intros H; try reflexivity; exfalso.
  - apply H. left. apply Ht, H1. reflexivity.
  - apply H. left. apply Ht, H1. reflexivity.
  - apply H. right. apply H2. reflexivity.
  - destruct H as [H|H].
    + apply Ht, H1 in H. discriminate.
    + apply H2 in H. discriminate.
Qed.

End CoercionFacts.

Ltac scientific pow Hpow coeff exp n :=
  rewrite (parseValue_scientific pow _ coeff exp []);
  [ replace (Number_ exp) with (ofZ n) by (vm_compute; reflexivity);
    rewrite (Hpow n) by lia; vm_compute; reflexivity
  | vm_compute; discriminate
  | vm_compute; reflexivity
  | vm_compute; reflexivity ].

(** C4: the four representative inputs coerce to the decimal strings
    ["123000"], ["5000"], ["100"] and ["0"]. A text with an [e] is split on
    it; the exponent goes through [Number], which on a run of digits, with
    or without a sign, is the integer they denote; the mantissa goes
    through [parseFloat]; the product goes through [Math.round] and the
    BigInt constructor: a product with a fraction becomes the nearest
    integer, the upper one of the two when it lies half-way (["1.5e0"]
    gives ["2"], ["2.5e0"] gives ["3"], ["-2.5e0"] gives ["-2"], ["1.4e0"]
    gives ["1"], ["1.25e1"] gives ["13"]), and an integral product is kept;
    the result is rendered as decimal digits (after a minus sign when
    negative), with no exponent and no fraction. *)
Theorem scientific_bigint_coercion pow :
  exactOnPowersOfTen pow ->
  parseValue pow (Some (lit "1.23E+5")) TBigInt = JStr (lit "123000") /\
  parseValue pow (Some (lit "5e3")) TBigInt = JStr (lit "5000") /\
  parseValue pow (Some (lit "100")) TBigInt = JStr (lit "100") /\
  parseValue pow (Some (lit "0")) TBigInt = JStr (lit "0") /\
  (forall v coeff exp rest,
     v <> [] ->
     includes (trim v) (lit "e") || includes (trim v) (lit "E") = true ->
     split 101%N (toLowerCase (trim v)) = coeff :: exp :: rest ->
     parseValue pow (Some v) TBigInt =
     match BigInt_of_number
             (Math_round (times (parseFloat coeff) (pow (ofZ 10) (Number_ exp)))) with
     | Normal z => JStr (BigInt_toString z)
     | Throw _ => JNull
     end) /\
  (forall ds, ds <> [] -> forallb isDigit ds = true ->
     Number_ ds = ofZ (decimalValue ds)) /\
  (forall z, exists ds,
     ds <> [] /\ forallb isDigit ds = true /\
     BigInt_toString z = (if (z <? 0)%Z then [45%N] else []) ++ ds) /\
  (parseValue pow (Some (lit "1.5e0")) TBigInt = JStr (lit "2") /\
   parseValue pow (Some (lit "2.5e0")) TBigInt = JStr (lit "3") /\
   parseValue pow (Some (lit "-2.5e0")) TBigInt = JStr (lit "-2") /\
   parseValue pow (Some (lit "1.4e0")) TBigInt = JStr (lit "1") /\
   parseValue pow (Some (lit "1.25e1")) TBigInt = JStr (lit "13")) /\
  (forall v coeff exp rest sx m e,
     v <> [] ->
     includes (trim v) (lit "e") || includes (trim v) (lit "E") = true ->
     split 101%N (toLowerCase (trim v)) = coeff :: exp :: rest ->
     times (parseFloat coeff) (pow (ofZ 10) (Number_ exp)) = S754_finite sx m e ->
     (Zpos m < 2 ^ 53)%Z ->
     ((e < 0)%Z ->
      exists z,
        parseValue pow (Some v) TBigInt = JStr (BigInt_toString z) /\
        ((2 * z - 1) * 2 ^ (- e) <= 2 * (if sx then Zneg m else Zpos m)
         < (2 * z + 1) * 2 ^ (- e))%Z) /\
     ((0 <= e)%Z ->
      parseValue pow (Some v) TBigInt
      = JStr (BigInt_toString ((if sx then Zneg m else Zpos m) * 2 ^ e)))) /\
  (forall ds : jsstring, ds <> [] -> forallb isDigit ds = true ->
     Number_ (43%N :: ds) = ofZ (decimalValue ds) /\
     (decimalValue ds <> 0%Z -> Number_ (45%N :: ds) = ofZ (- decimalValue ds))).
Proof.
  intros Hpow.
  split; [|split; [|split; [|split; [|split; [|split; [|split; [|split; [|split]]]]]]]].
  - scientific pow Hpow (lit "1.23") (lit "+5") 5%Z.
  - scientific pow Hpow (lit "5") (lit "3") 3%Z.
  - vm_compute. reflexivity.
  - vm_compute. reflexivity.
  - apply parseValue_scientific.
  - apply Number_digits.
  - apply BigInt_toString_digits.
  - split; [|split; [|split; [|split]]].
    + scientific pow Hpow (lit "1.5") (lit "0") 0%Z.
    + scientific pow Hpow (lit "2.5") (lit "0") 0%Z.
    + scientific pow Hpow (lit "-2.5") (lit "0") 0%Z.
    + scientific pow Hpow (lit "1.4") (lit "0") 0%Z.
    + scientific pow Hpow (lit "1.25") (lit "1") 1%Z.
  - intros v coeff exp rest sx m e Hne He Hs Hx Hm.
    rewrite (parseValue_scientific pow v coeff exp rest Hne He Hs), Hx.
    split.
    + intros Hneg.
      destruct (Math_round_nearest sx m e Hneg Hm) as [z [Hz Hnear]].
      exists z. rewrite Hz. split; [reflexivity | exact Hnear].
    + intros Hpos.
      assert (E : (0 <=? e)%Z = true) by (apply Z.leb_le; lia).
      unfold Math_round. rewrite E.
      unfold BigInt_of_number, integerOf. rewrite E.
      cbv beta iota zeta. cbn [option_map]. destruct sx; [|reflexivity].
      replace (Z.neg m * 2 ^ e)%Z with (- (Z.pos m * 2 ^ e))%Z by lia.
      reflexivity.
  - intros ds Hne Hd. split.
    + refine (eq_trans (Number_signed_digits 43%N ds (or_introl eq_refl) Hne Hd) _).
      cbn [N.eqb Pos.eqb]. unfold ofDecimal.
      pose proof (decimalValue_nonneg ds) as Hnn.
      destruct (decimalValue ds) as [|q|q]; [reflexivity| |lia].
      cbn [Z.leb Z.compare Z.pow]. rewrite Z.mul_1_r. reflexivity.
    + intros Hnz.
      refine (eq_trans (Number_signed_digits 45%N ds (or_intror eq_refl) Hne Hd) _).
      cbn [N.eqb Pos.eqb]. unfold ofDecimal.
      pose proof (decimalValue_nonneg ds) as Hnn.
      destruct (decimalValue ds) as [|q|q]; [congruence| |lia].
      cbn [Z.leb Z.compare Z.pow]. rewrite Z.mul_1_r. reflexivity.
Qed.

(** Witness of C4: a [Math.pow] exact on the natural powers of integers. *)
Lemma scientific_bigint_coercion_witness :
  parseValue exactPow (Some (lit "1.23E+5")) TBigInt = JStr (lit "123000") /\
  parseValue exactPow (Some (lit "5e3")) TBigInt = JStr (lit "5000") /\
  parseValue exactPow (Some (lit "100")) TBigInt = JStr (lit "100") /\
  parseValue exactPow (Some (lit "0")) TBigInt = JStr (lit "0") /\
  parseValue exactPow (Some (lit "1.5e0")) TBigInt = JStr (lit "2") /\
  parseValue exactPow (Some (lit "-2.5e0")) TBigInt = JStr (lit "-2").
Proof.
  pose proof (scientific_bigint_coercion exactPow exactPow_powers_of_ten) as H.
  destruct H as [H1 [H2 [H3 [H4 [_ [_ [_ [[H5 [_ [H6 _]]] _]]]]]]]].
  split; [exact H1 | split; [exact H2 | split; [exact H3 | split; [exact H4|]]]].
  split; [exact H5 | exact H6].
Defined.

(** C5, on the code: at type [int] a non-empty text always gives a Number,
    never [null]; for a non-numeric text that Number is [NaN]: [parseInt]
    returns [NaN] without throwing, so the [catch] never runs, and [mapRow]
    stores that [NaN] under the field. *)
Theorem non_numeric_int_gives_NaN pow uuid :
  parseValue pow (Some (lit "abc")) TInt = JNum NaN /\
  parseValue pow (Some (lit "abc")) TInt <> JNull /\
  get (key_of "a")
      (mapRow pow (HEADER_MAPPING (abc defaultChunkSize alwaysUp))
              (FIELD_TYPES (abc defaultChunkSize alwaysUp)) uuid rowAbc)
  = Some (JNum NaN) /\
  (forall c v, exists x, parseValue pow (Some (c :: v)) TInt = JNum x).
Proof.
  split; [|split; [|split]].
  - vm_compute. reflexivity.
  - vm_compute. discriminate.
  - vm_compute. reflexivity.
  - intros c v. eexists. reflexivity.
Qed.

(** C6, on the code of [server.js]: at type [bool] the value is that of
    the [BigInt] case, whatever the text: ["true"] gives [null] (the
    RangeError of [BigInt(NaN)] is caught), ["1"] gives the string ["1"],
    ["0"] the string ["0"]. *)
Theorem server_bool_falls_through pow :
  Server.parseValue pow (Some (lit "true")) TBool = JNull /\
  Server.parseValue pow (Some (lit "TRUE")) TBool = JNull /\
  Server.parseValue pow (Some (lit "1")) TBool = JStr (lit "1") /\
  Server.parseValue pow (Some (lit "0")) TBool = JStr (lit "0") /\
  (forall v, Server.parseValue pow (Some v) TBool =
             Server.parseValue pow (Some v) TBigInt).
Proof.
  split; [|split; [|split; [|split]]].
  - vm_compute. reflexivity.
  - vm_compute. reflexivity.
  - vm_compute. reflexivity.
  - vm_compute. reflexivity.
  - intros v. unfold Server.parseValue. destruct (trim v); reflexivity.
Qed.

(** C9: at type [int], a text that begins with decimal digits gives the
    Number of those digits, which below [2 ^ 53] is exactly the integer they
    denote; what follows the digits is discarded, the result being that for
    the digits alone, never [null]. *)
Theorem parseInt_discards_trailing_text pow ds rest :
  ds <> [] ->
  forallb isDigit ds = true ->
  match rest with [] => True | c :: _ => isDigit c = false end ->
  parseValue pow (Some (ds ++ rest)) TInt = JNum (ofZ (decimalValue ds)) /\
  parseValue pow (Some (ds ++ rest)) TInt = parseValue pow (Some ds) TInt /\
  parseValue pow (Some (ds ++ rest)) TInt <> JNull /\
  ((decimalValue ds < 2 ^ 53)%Z ->
   integerOf (ofZ (decimalValue ds)) = Some (decimalValue ds)).
Proof.
  intros Hne Hd Hrest.
  assert (Hgen : forall tail,
             match tail with [] => True | c :: _ => isDigit c = false end ->
             parseValue pow (Some (ds ++ tail)) TInt = JNum (ofZ (decimalValue ds))).
  { intros tail Htail. unfold parseValue.
    destruct (ds ++ tail) as [|c s] eqn:Happ.
    - destruct ds; [congruence | discriminate].
    - rewrite <- Happ. unfold parseInt10.
      rewrite trimStart_digits by assumption.
      destruct ds as [|d ds']; [congruence|].
      cbn [app]. rewrite digit_takeSign
        by (cbn [forallb] in Hd; apply andb_prop in Hd; tauto).
      change (d :: ds' ++ tail) with ((d :: ds') ++ tail).
      rewrite takeWhile_digits by assumption.
      destruct (decimalValue (d :: ds') =? 0)%Z eqn:Hz; [|reflexivity].
      apply Z.eqb_eq in Hz. rewrite Hz. reflexivity. }
  rewrite (Hgen rest Hrest).
  pose proof (Hgen [] I) as Hnil. rewrite app_nil_r in Hnil. rewrite Hnil.
  split; [reflexivity | split; [reflexivity | split; [discriminate|]]].
  intros Hlt. apply ofZ_exact. split; [apply decimalValue_nonneg | exact Hlt].
Qed.

(** Witness of C9: ["12abc"] gives the Number 12. *)
Lemma parseInt_discards_trailing_text_witness :
  parseValue exactPow (Some (lit "12" ++ lit "abc")) TInt
    = JNum (ofZ (decimalValue (lit "12"))) /\
  decimalValue (lit "12") = 12%Z /\
  integerOf (ofZ (decimalValue (lit "12"))) = Some 12%Z.
Proof.
  destruct (parseInt_discards_trailing_text exactPow (lit "12") (lit "abc"))
    as [H1 [_ [_ H4]]].
  - vm_compute. discriminate.
  - vm_compute. reflexivity.
  - vm_compute. reflexivity.
  - split; [exact H1 | split; [vm_compute; reflexivity|]].
    apply H4. vm_compute. reflexivity.
Defined.

(** C10: the mantissa of a scientific form goes through [parseFloat]:
    ["1.2345678901234567891e19"], of twenty significant digits, coerces to
    ["12345678901234567168"], which is not the exact value
    12345678901234567891 of the mantissa times [10 ^ 19]; a run of decimal
    digits of any length coerces to the canonical text of the integer it
    denotes. *)
Theorem scientific_mantissa_is_rounded pow :
  exactOnPowersOfTen pow ->
  parseValue pow (Some (lit "1.2345678901234567891e19")) TBigInt
    = JStr (lit "12345678901234567168") /\
  BigInt_toString (exactScientific (lit "1") (lit "2345678901234567891") 19)
    = lit "12345678901234567891" /\
  lit "12345678901234567168" <> lit "12345678901234567891" /\
  18 <= length (lit "1" ++ lit "2345678901234567891") /\
  (forall ds, ds <> [] -> forallb isDigit ds = true ->
     parseValue pow (Some ds) TBigInt = JStr (BigInt_toString (decimalValue ds)) /\
     decimalValue (BigInt_toString (decimalValue ds)) = decimalValue ds).
Proof.
  intros Hpow. split; [|split; [|split; [|split]]].
  - scientific pow Hpow (lit "1.2345678901234567891") (lit "19") 19%Z.
  - vm_compute. reflexivity.
  - vm_compute. discriminate.
  - vm_compute. lia.
  - intros ds Hne Hd. split.
    + unfold parseValue. destruct ds as [|c ds']; [congruence|].
      rewrite parseScientificBigInt_digits by assumption. reflexivity.
    + apply decimalValue_toString, decimalValue_nonneg.
Qed.

(** Witness of C10. *)
Lemma scientific_mantissa_is_rounded_witness :
  parseValue exactPow (Some (lit "1.2345678901234567891e19")) TBigInt
    = JStr (lit "12345678901234567168") /\
  parseValue exactPow (Some (lit "123456789012345678901234567890")) TBigInt
    = JStr (lit "123456789012345678901234567890").
Proof.
  pose proof (scientific_mantissa_is_rounded exactPow exactPow_powers_of_ten) as H.
  destruct H as [H1 [_ [_ [_ H4]]]]. split; [exact H1|].
  assert (Hne : lit "123456789012345678901234567890" <> [])
    by (vm_compute; discriminate).
  assert (Hd : forallb isDigit (lit "123456789012345678901234567890") = true)
    by (vm_compute; reflexivity).
  destruct (H4 _ Hne Hd) as [H5 _].
  refine (eq_trans H5 _). vm_compute. reflexivity.
Defined.

(** * Further properties of the code *)

(** ** Objects *)

Lemma streq_refl k : streq k k = true.
Proof. apply streq_eq. reflexivity. Qed.

Lemma streq_neq a b : a <> b -> streq a b = false.
Proof.
  intros H. destruct (streq a b) eqn:E; [|reflexivity].
  apply streq_eq in E. contradiction.
Qed.

(** Two names with the same text are the same name. *)
Lemma key_ext (a b : key) : text a = text b -> a = b.
Proof.
  destruct a as [ta pa], b as [tb pb]. cbn. intros ->. f_equal.
  apply Eqdep_dec.UIP_dec. apply Bool.bool_dec.
Qed.

Lemma keq_eq a b : keq a b = true <-> a = b.
Proof.
  unfold keq. rewrite streq_eq. split; [apply key_ext | intros ->; reflexivity].
Qed.

Lemma keq_refl k : keq k k = true.
Proof. apply keq_eq. reflexivity. Qed.

Lemma keq_neq a b : a <> b -> keq a b = false.
Proof.
  intros H. destruct (keq a b) eqn:E; [|reflexivity].
  apply keq_eq in E. contradiction.
Qed.

Lemma get_set_same {V : Type} k (v : V) o : get k (set k v o) = Some v.
Proof.
  induction o as [|[k' v'] o IH]; cbn.
  - rewrite keq_refl. reflexivity.
  - destruct (keq k k') eqn:E; cbn.
    + rewrite keq_refl. reflexivity.
    + rewrite E. exact IH.
Qed.

Lemma get_set_other {V : Type} k k2 (v : V) o :
  k2 <> k -> get k2 (set k v o) = get k2 o.
Proof.
  intros Hne. induction o as [|[k' v'] o IH]; cbn.
  - rewrite (keq_neq k2 k Hne). reflexivity.
  - destruct (keq k k') eqn:E; cbn.
    + apply keq_eq in E. subst k'.
      rewrite (keq_neq k2 k Hne). reflexivity.
    + rewrite IH. reflexivity.
Qed.

Lemma keys_set_new {V : Type} k (v : V) o :
  ~ In k (keys o) -> keys (set k v o) = keys o ++ [k].
Proof.
  unfold keys.
  induction o as [|[k' v'] o IH]; intros Hnin; [reflexivity|].
  cbn in *. destruct (keq k k') eqn:E.
  - apply keq_eq in E. subst k'. tauto.
  - cbn. rewrite IH by tauto. reflexivity.
Qed.

(** ** The record mapper *)

Section MapperFacts.

Variable pow : number -> number -> number.
Variable FT : object ftype.
Variable r : row.

Lemma fold_put_keys (HM : object key) : forall acc : record,
  NoDup (map snd HM) ->
  (forall k, In k (map snd HM) -> ~ In k (keys acc)) ->
  keys (fold_left
          (fun (mapped : record) '(csvHeader, dbField) =>
             set dbField (parseValue pow (get csvHeader r) (fieldType FT csvHeader))
                 mapped) HM acc)
  = keys acc ++ map snd HM.
Proof.
  induction HM as [|[h f] HM IH]; intros acc Hnd Hdisj; cbn [fold_left map].
  - symmetry. apply app_nil_r.
  - inversion Hnd as [|? ? Hnin Hnd']; subst.
    rewrite IH.
    + rewrite keys_set_new by (apply Hdisj; left; reflexivity).
      rewrite <- app_assoc. reflexivity.
    + exact Hnd'.
    + intros k Hk.
      rewrite keys_set_new by (apply Hdisj; left; reflexivity).
      rewrite in_app_iff. intros [H|[H|[]]].
      * apply (Hdisj k); [right; exact Hk | exact H].
      * subst k. contradiction.
Qed.

Lemma fold_put_get_old (HM : object key) : forall (acc : record) k,
  ~ In k (map snd HM) ->
  get k (fold_left
           (fun (mapped : record) '(csvHeader, dbField) =>
              set dbField (parseValue pow (get csvHeader r) (fieldType FT csvHeader))
                  mapped) HM acc)
  = get k acc.
Proof.
  induction HM as [|[h f] HM IH]; intros acc k Hnin; [reflexivity|].
  cbn in Hnin. cbn [fold_left]. rewrite IH by tauto.
  apply get_set_other. intros ->. tauto.
Qed.

Lemma fold_put_get (HM : object key) : forall (acc : record) h f,
  NoDup (map snd HM) -> In (h, f) HM ->
  get f (fold_left
           (fun (mapped : record) '(csvHeader, dbField) =>
              set dbField (parseValue pow (get csvHeader r) (fieldType FT csvHeader))
                  mapped) HM acc)
  = Some (parseValue pow (get h r) (fieldType FT h)).
Proof.
  induction HM as [|[h' f'] HM IH]; intros acc h f Hnd Hin; [destruct Hin|].
  inversion Hnd as [|? ? Hnin Hnd']; subst. cbn [fold_left].
  destruct Hin as [Heq|Hin].
  - injection Heq as -> ->.
    rewrite fold_put_get_old by exact Hnin.
    apply get_set_same.
  - apply IH; assumption.
Qed.

Lemma mapRow_fold (HM : object key) uuid :
  mapRow pow HM FT uuid r
  = set (key_of "_uuid") (JStr uuid)
        (fold_left
           (fun (mapped : record) '(csvHeader, dbField) =>
              set dbField (parseValue pow (get csvHeader r) (fieldType FT csvHeader))
                  mapped) HM []).
Proof. reflexivity. Qed.

End MapperFacts.

(** X1: when the output field names of [HEADER_MAPPING] are distinct and
    none is ["_uuid"], the record built by [mapRow] has exactly one entry
    per schema entry, in schema order, followed by ["_uuid"]; each field
    holds the coercion of the row's value under the source column, [null]
    when the row lacks that column, and ["_uuid"] holds the UUID drawn.
    The names are ordinary ones: an output name that is an array index,
    which [Object.entries] and [JSON.stringify] would list first, or a
    name found on [Object.prototype], is not a [key]. *)
Theorem mapRow_keeps_every_field pow HM FT uuid r :
  NoDup (map snd HM) ->
  ~ In (key_of "_uuid") (map snd HM) ->
  keys (mapRow pow HM FT uuid r) = map snd HM ++ [key_of "_uuid"] /\
  get (key_of "_uuid") (mapRow pow HM FT uuid r) = Some (JStr uuid) /\
  (forall h f, In (h, f) HM ->
     get f (mapRow pow HM FT uuid r)
     = Some (parseValue pow (get h r) (fieldType FT h))) /\
  (forall h f, In (h, f) HM -> get h r = None ->
     get f (mapRow pow HM FT uuid r) = Some JNull).
Proof.
  intros Hnd Hu. rewrite mapRow_fold.
  assert (Hget : forall h f, In (h, f) HM ->
     get f (mapRow pow HM FT uuid r)
     = Some (parseValue pow (get h r) (fieldType FT h))).
  { intros h f Hin. rewrite mapRow_fold, get_set_other.
    - apply (fold_put_get pow FT r HM [] h f Hnd Hin).
    - intros ->. apply Hu. apply (in_map snd) in Hin. exact Hin. }
  split; [|split; [|split]].
  - rewrite keys_set_new.
    + rewrite (fold_put_keys pow FT r HM [] Hnd); [reflexivity | intros k _ []].
    + rewrite (fold_put_keys pow FT r HM [] Hnd); [exact Hu | intros k _ []].
  - apply get_set_same.
  - intros h f Hin. rewrite <- mapRow_fold. apply Hget. exact Hin.
  - intros h f Hin Hnone. rewrite <- mapRow_fold, (Hget h f Hin), Hnone. reflexivity.
Qed.

(** Witness of X1: the schema [abc] and a row without the column [C]. *)
Lemma mapRow_keeps_every_field_witness :
  keys (mapRow exactPow (HEADER_MAPPING (abc 4 alwaysUp))
               (FIELD_TYPES (abc 4 alwaysUp)) (lit "u") rowAb)
  = [key_of "a"; key_of "b"; key_of "c"; key_of "_uuid"] /\
  get (key_of "c") (mapRow exactPow (HEADER_MAPPING (abc 4 alwaysUp))
                           (FIELD_TYPES (abc 4 alwaysUp)) (lit "u") rowAb)
  = Some JNull.
Proof.
  destruct (mapRow_keeps_every_field exactPow (HEADER_MAPPING (abc 4 alwaysUp))
              (FIELD_TYPES (abc 4 alwaysUp)) (lit "u") rowAb)
    as [Hk [_ [_ Hnull]]].
  - cbn [abc HEADER_MAPPING map snd].
    repeat (constructor; [intros H; repeat destruct H as [H|H]; try discriminate H; exact H|]).
    constructor.
  - cbn [abc HEADER_MAPPING map snd].
    intros H. repeat destruct H as [H|H]; try discriminate H; exact H.
  - split; [exact Hk|].
    apply (Hnull (key_of "C") (key_of "c")).
    + right. right. left. reflexivity.
    + vm_compute. reflexivity.
Defined.

(** ** Texts that keep their ends under [trim] *)

Lemma includes_absent s x :
  (forall c, In c s -> c <> x) -> includes s [x] = false.
Proof.
  induction s as [|c s IH]; intros H; [reflexivity|].
  cbn [includes startsWith].
  rewrite IH by (intros d Hd; apply H; right; exact Hd).
  destruct (N.eqb x c) eqn:E; [|reflexivity].
  apply N.eqb_eq in E. exfalso. apply (H c); [left; reflexivity | congruence].
Qed.

Lemma digit_is_not c x : isDigit c = true -> isDigit x = false -> c <> x.
Proof. intros Hc Hx ->. congruence. Qed.

Lemma digits_absent ds x :
  forallb isDigit ds = true -> isDigit x = false ->
  forall c, In c ds -> c <> x.
Proof.
  intros Hd Hx c Hc.
  apply digit_is_not; [|exact Hx].
  apply (proj1 (forallb_forall isDigit ds) Hd c Hc).
Qed.

(** ** More of the BigInt coercion *)

Section BigIntFacts.

Variable pow : number -> number -> number.

(** A minus sign before a run of digits goes through the BigInt
    constructor too. *)
Lemma parseScientificBigInt_negative ds :
  ds <> [] -> forallb isDigit ds = true ->
  parseScientificBigInt pow (45%N :: ds) = Normal (Big (- decimalValue ds)).
Proof.
  intros Hne Hd. unfold parseScientificBigInt.
  destruct ds as [|d ds']; [congruence|].
  assert (Htrim : trim (45%N :: d :: ds') = 45%N :: d :: ds').
  { apply trim_noop; [reflexivity|].
    change (last (45%N :: d :: ds') 45%N) with (last (d :: ds') 45%N).
    apply digit_not_space.
    apply (proj1 (forallb_forall isDigit (d :: ds')) Hd).
    apply last_in. discriminate. }
  rewrite Htrim.
  change (lit "e") with [101%N]. change (lit "E") with [69%N].
  rewrite !includes_absent.
  - cbn [negb andb]. unfold BigInt_of_string. rewrite Htrim.
    assert (Hnd : nonDecimalLiteral (45%N :: d :: ds') = None)
      by (destruct ds'; reflexivity).
    destruct (nonDecimalLiteral _); [discriminate Hnd|].
    cbn [takeSign]. rewrite Hd. reflexivity.
  - intros c [<-|Hc]; [discriminate|].
    apply (digits_absent (d :: ds') 69%N Hd eq_refl c Hc).
  - intros c [<-|Hc]; [discriminate|].
    apply (digits_absent (d :: ds') 101%N Hd eq_refl c Hc).
Qed.

(** X2: the canonical decimal text of any integer, negative ones included,
    is a fixed point of the BigInt coercion. *)
Theorem bigint_text_round_trip z :
  parseValue pow (Some (BigInt_toString z)) TBigInt = JStr (BigInt_toString z).
Proof.
  destruct (BigInt_toString_digits z) as [ds [Hne [Hd Hz]]].
  destruct (z <? 0)%Z eqn:Hneg.
  - rewrite Hz. cbn [app]. unfold parseValue.
    rewrite parseScientificBigInt_negative by assumption.
    cbn [toString]. do 2 f_equal.
    destruct z as [|p|p]; try discriminate Hneg.
    unfold BigInt_toString in Hz. cbn [Z.to_int] in Hz.
    injection Hz as Hz. rewrite <- Hz.
    unfold decimalValue. rewrite uintOfDigits_digitsOfUint.
    unfold Z.of_uint. rewrite DecimalPos.Unsigned.of_to. reflexivity.
  - cbn [app] in Hz. rewrite Hz. unfold parseValue.
    destruct ds as [|d ds'] eqn:Hds; [congruence|]. rewrite <- Hds in *.
    rewrite parseScientificBigInt_digits by assumption.
    rewrite Hds. rewrite <- Hds. cbn [toString].
    rewrite <- Hz. rewrite decimalValue_toString; [reflexivity|].
    apply Z.ltb_ge in Hneg. exact Hneg.
Qed.

(** X3: a decimal fraction written without exponent is not coerced: the
    BigInt constructor throws on the point and [parseValue] gives [null]. *)
Theorem bigint_plain_fraction_is_null ds fs :
  ds <> [] -> forallb isDigit ds = true -> forallb isDigit fs = true ->
  parseValue pow (Some (ds ++ 46%N :: fs)) TBigInt = JNull.
Proof.
  intros Hne Hd Hf. destruct ds as [|d ds']; [congruence|].
  assert (Hd0 : isDigit d = true)
    by (cbn [forallb] in Hd; apply andb_prop in Hd; tauto).
  set (v := (d :: ds') ++ 46%N :: fs).
  assert (Hall : forall c, In c v -> isDigit c = true \/ c = 46%N).
  { intros c Hc. unfold v in Hc. apply in_app_or in Hc.
    destruct Hc as [Hc|[Hc|Hc]].
    - left. apply (proj1 (forallb_forall isDigit _) Hd c Hc).
    - right. congruence.
    - left. apply (proj1 (forallb_forall isDigit _) Hf c Hc). }
  assert (Hns : forall c, In c v -> isWhiteSpace c = false).
  { intros c Hc. destruct (Hall c Hc) as [H| ->];
      [apply digit_not_space, H | reflexivity]. }
  assert (Htrim : trim v = v).
  { unfold v. cbn [app]. apply trim_noop.
    - apply digit_not_space, Hd0.
    - apply Hns. unfold v. cbn [app]. apply last_in. discriminate. }
  assert (Hdot : forallb isDigit v = false).
  { unfold v. rewrite forallb_app. cbn [forallb].
    change (isDigit 46%N) with false.
    rewrite andb_false_r. reflexivity. }
  assert (Hnd : nonDecimalLiteral v = None).
  { unfold v. cbn [app]. destruct (ds' ++ 46%N :: fs) as [|p [|q t]] eqn:Ht;
      try reflexivity.
    unfold nonDecimalLiteral.
    destruct (negb (N.eqb d 48)); [reflexivity|].
    assert (Hp : isDigit p = true \/ p = 46%N).
    { apply Hall. unfold v. cbn [app]. rewrite Ht. right. left. reflexivity. }
    destruct Hp as [Hp| ->]; [digit_cases Hp; reflexivity | reflexivity]. }
  unfold parseValue. fold v. destruct v as [|c0 v0] eqn:Hv; [discriminate|].
  rewrite <- Hv in *. unfold parseScientificBigInt.
  rewrite Hv. rewrite <- Hv. rewrite Htrim.
  change (lit "e") with [101%N]. change (lit "E") with [69%N].
  rewrite !includes_absent.
  - cbn [negb andb]. unfold BigInt_of_string. rewrite Htrim.
    rewrite Hv. rewrite <- Hv. rewrite Hnd.
    replace (takeSign v) with (false, v)
      by (unfold v; cbn [app]; symmetry; apply digit_takeSign, Hd0).
    rewrite Hv. rewrite <- Hv. rewrite Hdot. reflexivity.
  - intros c Hc. destruct (Hall c Hc) as [H| ->]; [|discriminate].
    apply (digit_is_not c 69%N H eq_refl).
  - intros c Hc. destruct (Hall c Hc) as [H| ->]; [|discriminate].
    apply (digit_is_not c 101%N H eq_refl).
Qed.

(** X4: a text with an [e] whose mantissa [parseFloat] cannot read gives
    [null], whatever [Math.pow] returns: the product is [NaN] and the
    BigInt constructor throws on it. *)
Theorem bigint_unreadable_mantissa_is_null v coeff exp rest :
  v <> [] ->
  includes (trim v) (lit "e") || includes (trim v) (lit "E") = true ->
  split 101%N (toLowerCase (trim v)) = coeff :: exp :: rest ->
  parseFloat coeff = NaN ->
  parseValue pow (Some v) TBigInt = JNull.
Proof.
  intros Hne He Hs Hnan.
  rewrite (parseValue_scientific pow v coeff exp rest Hne He Hs).
  rewrite Hnan. reflexivity.
Qed.

End BigIntFacts.

(** Witness of X3: ["12.5"]. *)
Lemma bigint_plain_fraction_is_null_witness :
  parseValue exactPow (Some (lit "12" ++ 46%N :: lit "5")) TBigInt = JNull.
Proof.
  apply (bigint_plain_fraction_is_null exactPow (lit "12") (lit "5")).
  - vm_compute. discriminate.
  - vm_compute. reflexivity.
  - vm_compute. reflexivity.
Defined.

(** Witness of X4: ["hello"], which is split into ["h"] and ["llo"]. *)
Lemma bigint_unreadable_mantissa_is_null_witness :
  parseValue exactPow (Some (lit "hello")) TBigInt = JNull.
Proof.
  apply (bigint_unreadable_mantissa_is_null exactPow (lit "hello")
           (lit "h") (lit "llo") []).
  - vm_compute. discriminate.
  - vm_compute. reflexivity.
  - vm_compute. reflexivity.
  - vm_compute. reflexivity.
Defined.

(** ** The float coercion *)

(** The int coercion of a digit prefix, for use beside other types. *)
Lemma parseValue_int_digits pow ds rest :
  ds <> [] ->
  forallb isDigit ds = true ->
  match rest with [] => True | c :: _ => isDigit c = false end ->
  parseValue pow (Some (ds ++ rest)) TInt = JNum (ofZ (decimalValue ds)).
Proof.
  intros Hne Hd Hrest. unfold parseValue.
  destruct (ds ++ rest) as [|c s] eqn:Happ.
  - destruct ds; [congruence | discriminate].
  - rewrite <- Happ. unfold parseInt10.
    rewrite trimStart_digits by assumption.
    destruct ds as [|d ds']; [congruence|].
    cbn [app]. rewrite digit_takeSign
      by (cbn [forallb] in Hd; apply andb_prop in Hd; tauto).
    change (d :: ds' ++ rest) with ((d :: ds') ++ rest).
    rewrite takeWhile_digits by assumption.
    destruct (decimalValue (d :: ds') =? 0)%Z eqn:Hz; [|reflexivity].
    apply Z.eqb_eq in Hz. rewrite Hz. reflexivity.
Qed.


(** A run of digits at the head of a text is read as a StrDecimalLiteral
    when the next character cannot continue it. *)
Lemma scan_after_digits ds rest :
  ds <> [] ->
  forallb isDigit ds = true ->
  match rest with
  | [] => True
  | c :: _ => isDigit c = false /\ c <> 46%N /\ c <> 101%N /\ c <> 69%N
  end ->
  scanDecimalLiteral (ds ++ rest) = Some (ofZ (decimalValue ds), rest).
Proof.
  intros Hne Hd Hrest.
  assert (Hrest' : match rest with [] => True | c :: _ => isDigit c = false end)
    by (destruct rest; tauto).
  unfold scanDecimalLiteral.
  destruct ds as [|d ds'] eqn:Hds; [congruence|]. rewrite <- Hds in *.
  assert (Hd0 : isDigit d = true)
    by (rewrite Hds in Hd; cbn [forallb] in Hd; apply andb_prop in Hd; tauto).
  replace (takeSign (ds ++ rest)) with (false, ds ++ rest)
    by (rewrite Hds; cbn [app]; symmetry; apply digit_takeSign, Hd0).
  replace (startsWith (ds ++ rest) (lit "Infinity")) with false
    by (rewrite Hds; cbn [app]; clear - Hd0; digit_cases Hd0; reflexivity).
  cbv zeta.
  rewrite (takeWhile_digits ds rest Hd Hrest').
  rewrite (dropWhile_digits ds rest Hd Hrest').
  assert (Hval : ofDecimal false (decimalValue ds) (0 - 0) = ofZ (decimalValue ds)).
  { unfold ofDecimal. pose proof (decimalValue_nonneg ds) as Hnn.
    destruct (decimalValue ds) as [|p|p]; [reflexivity| |lia].
    cbn [Z.sub Z.opp Z.add Z.leb Z.compare Z.pow]. rewrite Z.mul_1_r. reflexivity. }
  destruct rest as [|c r].
  - cbv beta iota zeta. rewrite app_nil_r. rewrite Hds at 1. rewrite <- Hds.
    cbn [length Z.of_nat]. rewrite Hval. reflexivity.
  - destruct Hrest as [_ [H46 [H101 H69]]].
    apply N.eqb_neq in H101, H69.
    destruct c as [|p];
      [|destruct p as [p|p|]; try destruct p as [p|p|]; try destruct p as [p|p|];
        try destruct p as [p|p|]; try destruct p as [p|p|]; try destruct p as [p|p|]];
      cbv beta iota zeta; try congruence;
      rewrite H101, H69; cbv beta iota zeta; cbn [orb];
      rewrite app_nil_r; rewrite Hds at 1; rewrite <- Hds;
      cbn [length Z.of_nat]; rewrite Hval; reflexivity.
Qed.

(** X5: at type [float], a text that begins with decimal digits followed by
    anything but a digit, a point or an exponent mark gives the Number of
    those digits, the same value as at type [int]; what follows is
    discarded. *)
Theorem float_of_integer_text pow ds rest :
  ds <> [] ->
  forallb isDigit ds = true ->
  match rest with
  | [] => True
  | c :: _ => isDigit c = false /\ c <> 46%N /\ c <> 101%N /\ c <> 69%N
  end ->
  parseValue pow (Some (ds ++ rest)) TFloat = JNum (ofZ (decimalValue ds)) /\
  parseValue pow (Some (ds ++ rest)) TFloat = parseValue pow (Some (ds ++ rest)) TInt.
Proof.
  intros Hne Hd Hrest.
  assert (Hrest' : match rest with [] => True | c :: _ => isDigit c = false end)
    by (destruct rest; tauto).
  pose proof (parseValue_int_digits pow ds rest Hne Hd Hrest') as Hint.
  assert (Hmain : parseValue pow (Some (ds ++ rest)) TFloat
                  = JNum (ofZ (decimalValue ds)));
    [|split; [exact Hmain | exact (eq_trans Hmain (eq_sym Hint))]].
  clear Hint. unfold parseValue.
  destruct (ds ++ rest) as [|c0 s0] eqn:Happ.
  - destruct ds; [congruence | discriminate].
  - rewrite <- Happ. f_equal. unfold parseFloat.
    rewrite trimStart_digits by assumption.
    rewrite scan_after_digits by assumption. reflexivity.
Qed.

(** Witness of X5: ["42 lots"]. *)
Lemma float_of_integer_text_witness :
  parseValue exactPow (Some (lit "42" ++ lit " lots")) TFloat
  = JNum (ofZ (decimalValue (lit "42"))).
Proof.
  destruct (float_of_integer_text exactPow (lit "42") (lit " lots")) as [H _].
  - vm_compute. discriminate.
  - vm_compute. reflexivity.
  - vm_compute. repeat split; discriminate.
  - exact H.
Defined.

(** ** Text through the read loop *)

(** Joining the pieces of a split gives the text back. *)
Lemma split_join sep s :
  concat (map (fun l => l ++ [sep]) (removelast (split sep s)))
  ++ last (split sep s) [] = s.
Proof.
  induction s as [|c s IH]; [reflexivity|].
  pose proof (split_nonempty sep s) as Hne.
  cbn [split]. destruct (N.eqb c sep) eqn:Hc.
  - apply N.eqb_eq in Hc. subst c.
    rewrite removelast_cons2, last_cons2 by assumption.
    cbn [map concat app]. rewrite IH. reflexivity.
  - destruct (split sep s) as [|h [|h' t]]; [congruence| |].
    + cbn in *. rewrite IH. reflexivity.
    + rewrite removelast_cons2 by discriminate.
      rewrite removelast_cons2 in IH by discriminate.
      rewrite last_cons2 by discriminate.
      rewrite last_cons2 in IH by discriminate.
      cbn [map concat app] in *. rewrite <- app_assoc in *.
      rewrite IH. reflexivity.
Qed.

Lemma no_LF_split p : ~ In LF p -> split LF p = [p].
Proof.
  induction p as [|c p IH]; intros H; [reflexivity|].
  cbn [split]. destruct (N.eqb c LF) eqn:Hc.
  - apply N.eqb_eq in Hc. exfalso. apply H. left. exact Hc.
  - rewrite IH by (intros Hin; apply H; right; exact Hin). reflexivity.
Qed.

Lemma split_no_LF p : split LF p = [p] -> ~ In LF p.
Proof.
  induction p as [|c p IH]; intros H; [intros []|].
  cbn [split] in H. destruct (N.eqb c LF) eqn:Hc.
  - pose proof (split_nonempty LF p). destruct (split LF p); congruence.
  - apply N.eqb_neq in Hc.
    pose proof (split_nonempty LF p) as Hne.
    destruct (split LF p) as [|h [|h' t]] eqn:Hs; [congruence| |discriminate H].
    injection H as H. subst h.
    intros [Hin|Hin]; [congruence | exact (IH eq_refl Hin)].
Qed.

(** The chunk texts of an ASCII content, put end to end, are its text. *)
Lemma ascii_chunk_texts n content k :
  0 < n -> isAscii content ->
  concat (map Buffer_toString
              (chunksOf (length content - k) n (skipn k content)))
  = asciiText (skipn k content).
Proof.
  intros Hn Hascii.
  assert (Hsk : isAscii (skipn k content)) by (apply Forall_skipn; exact Hascii).
  pose proof (ascii_chunkwiseDecodable n (skipn k content) Hn Hsk) as H.
  unfold chunkwiseDecodable, chunks in H. rewrite length_skipn in H.
  rewrite H. apply Buffer_toString_ascii. exact Hsk.
Qed.

(** What the loop emits from any position: the complete lines of the old
    fragment followed by the chunk texts, and their last fragment. *)
Lemma emittedLines_from n content k partial :
  0 < n -> k <= length content -> ~ In LF partial ->
  emittedLines n content k partial =
  (removelast (split LF (partial ++ concat (map Buffer_toString
       (chunksOf (length content - k) n (skipn k content))))),
   last (split LF (partial ++ concat (map Buffer_toString
       (chunksOf (length content - k) n (skipn k content))))) []).
Proof.
  intros Hn Hk Hp. apply emittedLines_texts; [assumption | assumption|].
  apply no_LF_split. exact Hp.
Qed.

(** X6: for an ASCII content, the lines a pass emits, each followed by a
    line feed, and then the fragment it leaves in [partialLine], spell
    exactly the fragment it started with followed by the bytes it read: no
    character is lost, repeated or moved. *)
Theorem pass_conserves_text n content k partial :
  0 < n -> k <= length content -> ~ In LF partial -> isAscii content ->
  concat (map (fun l => l ++ [LF]) (fst (emittedLines n content k partial)))
  ++ snd (emittedLines n content k partial)
  = partial ++ asciiText (skipn k content).
Proof.
  intros Hn Hk Hp Hascii.
  rewrite emittedLines_from by assumption. cbn [fst snd].
  rewrite ascii_chunk_texts by assumption.
  apply split_join.
Qed.

(** Witness of X6: the second pass on ["1,2,3\n4,5,6\n"], from byte 9 with
    ["4,5"] pending, in chunks of two bytes. *)
Lemma pass_conserves_text_witness :
  concat (map (fun l => l ++ [LF]) (fst (emittedLines 2 twoLines 9 (lit "4,5"))))
  ++ snd (emittedLines 2 twoLines 9 (lit "4,5"))
  = lit "4,5" ++ asciiText (skipn 9 twoLines).
Proof.
  apply (pass_conserves_text 2 twoLines 9 (lit "4,5")).
  - lia.
  - vm_compute. lia.
  - vm_compute. intros H. repeat destruct H as [H|H]; try discriminate H; exact H.
  - unfold isAscii, twoLines, bytes. cbn.
    repeat (apply Forall_cons; [reflexivity|]). apply Forall_nil.
Defined.

(** ** Passes on ASCII content *)

Section AsciiPasses.

Variable A : agent.
Variable forLine : pipeline -> jsstring -> run pipeline.

Lemma readLoop_partial_no_LF (St : Type) (f : St -> jsstring -> run St) n content size :
  forall fuel position partial s,
  ~ In LF partial ->
  ~ In LF (snd (fst (stateOf (readLoop f n fuel content size position partial s)))).
Proof.
  induction fuel as [|fuel IH]; intros position partial s Hp; [exact Hp|].
  cbn [readLoop].
  destruct (position <? size); [|exact Hp].
  destruct (_ =? 0); [exact Hp|].
  destruct (forLines f _ s) as [s'|s'].
  - apply IH. apply split_no_LF. apply split_last.
  - cbn. apply split_no_LF. apply split_last.
Qed.

Lemma readFileWith_no_LF st content :
  ~ In LF (partialLine st) ->
  ~ In LF (partialLine (stateOf (readFileWith A forLine st content))).
Proof.
  intros Hp. unfold readFileWith.
  destruct (length content =? offset st); [exact Hp|].
  pose proof (readLoop_partial_no_LF _ forLine (chunkSize A) content
                (length content) (length content - offset st) (offset st)
                (partialLine st) (pipe st) Hp) as H.
  destruct (readLoop _ _ _ _ _ _ _ _) as [[[position partial] p]|[[position partial] p]];
    exact H.
Qed.

(** A pass over ASCII content, in terms of the text only: the [for] body
    meets the complete lines of the old fragment followed by the new bytes;
    if none of its awaits hangs the pass returns at the end of the file. *)
Lemma readFileWith_ascii st content :
  0 < chunkSize A -> offset st < length content ->
  ~ In LF (partialLine st) -> isAscii content ->
  let text := partialLine st ++ asciiText (skipn (offset st) content) in
  exists pos q, offset st <= pos <= length content /\
  readFileWith A forLine st content =
  match forLines forLine (removelast (split LF text)) (pipe st) with
  | Returns p =>
      Returns {| offset := length content;
                 partialLine := last (split LF text) [];
                 pipe := publishBatch A p;
                 offsetFile := Some (length content) |}
  | Hangs p =>
      Hangs {| offset := pos; partialLine := q; pipe := p;
               offsetFile := offsetFile st |}
  end.
Proof.
  intros Hn Hlt Hp Hascii text.
  destruct (readFileWith_feed A forLine st content Hn Hlt) as [pos [Hb Heq]].
  destruct (feed_concat pipeline forLine
              (map Buffer_toString
                   (chunksOf (length content - offset st) (chunkSize A)
                             (skipn (offset st) content)))
              (partialLine st) (pipe st) (no_LF_split _ Hp)) as [F1 F2].
  rewrite ascii_chunk_texts in F1, F2 by assumption. fold text in F1, F2.
  rewrite Heq. rewrite <- F1.
  destruct (feed forLine _ _ _) as [[q p]|[q p]]; cbn [mapRun snd].
  - exists pos, q. split; [exact Hb|].
    specialize (F2 eq_refl). cbn in F2. rewrite F2. reflexivity.
  - exists pos, q. split; [exact Hb | reflexivity].
Qed.

End AsciiPasses.

(** X7: [partialLine] never holds a line feed, after any sequence of passes
    on any contents, whether they return or one of them hangs. *)
Theorem partialLine_has_no_line_feed A saved contents :
  ~ In LF (partialLine (stateOf (passes (Index2.readFile A) (boot saved) contents))).
Proof.
  unfold passes.
  apply (passes_keep A (Index2.forLine A) (fun st => ~ In LF (partialLine st))).
  - intros st content H. apply readFileWith_no_LF. exact H.
  - intros [].
Qed.

(** X8: on ASCII content the outcome of a pass does not depend on the
    chunk size: for any two positive sizes the pass returns or hangs alike,
    with the same records, sends and log and the same saved offset; when
    it returns, the whole state, offset and fragment included, is the
    same. *)
Theorem pass_is_chunk_size_independent A n1 n2 st content :
  0 < n1 -> 0 < n2 ->
  ~ In LF (partialLine st) -> isAscii content ->
  let r1 := Index2.readFile (withChunkSize A n1) st content in
  let r2 := Index2.readFile (withChunkSize A n2) st content in
  returned r1 = returned r2 /\
  pipe (stateOf r1) = pipe (stateOf r2) /\
  offsetFile (stateOf r1) = offsetFile (stateOf r2) /\
  (returned r1 = true -> r1 = r2).
Proof.
  intros H1 H2 Hp Hascii r1 r2. unfold r1, r2, Index2.readFile.
  destruct (Nat.lt_trichotomy (length content) (offset st)) as [Hlt|[Heq|Hgt]].
  - unfold readFileWith.
    replace (length content =? offset st) with false
      by (symmetry; apply Nat.eqb_neq; lia).
    replace (length content - offset st) with 0 by lia.
    repeat split; reflexivity.
  - unfold readFileWith.
    replace (length content =? offset st) with true
      by (symmetry; apply Nat.eqb_eq; exact Heq).
    repeat split; reflexivity.
  - destruct (readFileWith_ascii (withChunkSize A n1)
                (Index2.forLine (withChunkSize A n1)) st content H1 Hgt Hp Hascii)
      as [pos1 [q1 [_ E1]]].
    destruct (readFileWith_ascii (withChunkSize A n2)
                (Index2.forLine (withChunkSize A n2)) st content H2 Hgt Hp Hascii)
      as [pos2 [q2 [_ E2]]].
    rewrite E1, E2. clear E1 E2.
    change (Index2.forLine (withChunkSize A n2))
      with (Index2.forLine (withChunkSize A n1)).
    destruct (forLines _ _ (pipe st)) as [p|p]; cbn.
    + repeat split; reflexivity.
    + repeat split; try reflexivity. discriminate.
Qed.

(** Witness of X8: ["1,2,3\n4,5,6\n"] read in chunks of 1 and of 5 bytes. *)
Lemma pass_is_chunk_size_independent_witness :
  Index2.readFile (withChunkSize (abc 4 alwaysUp) 1) (boot None) twoLines
  = Index2.readFile (withChunkSize (abc 4 alwaysUp) 5) (boot None) twoLines.
Proof.
  destruct (pass_is_chunk_size_independent (abc 4 alwaysUp) 1 5 (boot None) twoLines)
    as [_ [_ [_ H]]].
  - lia.
  - lia.
  - vm_compute. intros H. exact H.
  - unfold isAscii, twoLines, bytes. cbn.
    repeat (apply Forall_cons; [reflexivity|]). apply Forall_nil.
  - apply H. vm_compute. reflexivity.
Defined.

(** X9: the first pass after a start-up hands to the [for] body the
    complete lines of the text that begins at the saved byte offset, and
    nothing else: whatever lies before that byte, be it the head of a line,
    plays no part, and the tail of a line cut by the offset is parsed as if
    it were a line. The pass returns exactly when that loop does, after
    flushing what the loop collected; if the loop hangs, the pipeline stays
    as the loop left it. *)
Theorem restart_resumes_at_saved_byte A saved content :
  0 < chunkSize A ->
  isAscii content ->
  offset (boot saved) < length content ->
  let r := Index2.readFile A (boot saved) content in
  let loop := forLines (Index2.forLine A)
                       (wholeFileLines (skipn (offset (boot saved)) content))
                       (pipe (boot saved)) in
  returned r = returned loop /\
  pipe (stateOf r)
  = (if returned loop then publishBatch A (stateOf loop) else stateOf loop) /\
  (returned r = true ->
   offset (stateOf r) = length content /\
   partialLine (stateOf r) =
     last (split LF (asciiText (skipn (offset (boot saved)) content))) []).
Proof.
  intros Hn Hascii Hlt r loop.
  destruct (readFileWith_ascii A (Index2.forLine A) (boot saved) content
              Hn Hlt (fun H : In LF [] => H) Hascii) as [pos [q [_ E]]].
  cbv zeta in E.
  assert (HL : forLines (Index2.forLine A)
                 (removelast (split LF (partialLine (boot saved)
                    ++ asciiText (skipn (offset (boot saved)) content))))
                 (pipe (boot saved)) = loop).
  { unfold loop, wholeFileLines.
    rewrite (Buffer_toString_ascii (skipn (offset (boot saved)) content))
      by (apply Forall_skipn; exact Hascii).
    reflexivity. }
  unfold r, Index2.readFile. rewrite E, HL. clear E HL.
  destruct loop as [p|p]; cbn [returned stateOf pipe offset partialLine].
  - split; [reflexivity | split; [reflexivity|]]. intros _. split; reflexivity.
  - split; [reflexivity | split; [reflexivity | discriminate]].
Qed.

(** Witness of X9: a start-up at byte 9 of ["1,2,3\n4,5,6\n"], inside the
    second line. The loop is handed [",6"], a line of two fields whose
    promise stays pending: the pass hangs with nothing mapped and nothing
    logged. *)
Lemma restart_resumes_at_saved_byte_witness :
  let A := abc 4 alwaysUp in
  let r := Index2.readFile A (boot (Some 9)) twoLines in
  wholeFileLines (skipn (offset (boot (Some 9))) twoLines) = [lit ",6"] /\
  returned r = false /\
  pipe (stateOf r) = pipe (boot (Some 9)).
Proof.
  intros A r.
  destruct (restart_resumes_at_saved_byte A (Some 9) twoLines) as [H1 [H2 _]].
  - vm_compute. lia.
  - unfold isAscii, twoLines, bytes. cbn.
    repeat (apply Forall_cons; [reflexivity|]). apply Forall_nil.
  - vm_compute. lia.
  - split; [vm_compute; reflexivity|].
    split; [exact H1 | exact H2].
Defined.

(** ** Records in order *)

Section Records.

Variable A : agent.

Lemma attempted_publishBatch p : attempted (publishBatch A p) = attempted p.
Proof.
  unfold attempted, publishBatch. destruct (batch p) as [|b bs] eqn:Hb.
  - rewrite Hb. reflexivity.
  - cbn [sends batch]. rewrite map_app, concat_app. cbn [map concat fst].
    rewrite !app_nil_r. reflexivity.
Qed.

Lemma publishBatch_keeps p :
  headerParsed (publishBatch A p) = headerParsed p /\
  uuids (publishBatch A p) = uuids p.
Proof. unfold publishBatch. destruct (batch p); split; reflexivity. Qed.

Lemma sameRecords_refl p : sameRecords p p.
Proof. repeat split. Qed.

Lemma sameRecords_trans p q r :
  sameRecords p q -> sameRecords q r -> sameRecords p r.
Proof. unfold sameRecords. intuition congruence. Qed.

Lemma sameRecords_sym_publishBatch p : sameRecords p (publishBatch A p).
Proof.
  destruct (publishBatch_keeps p) as [H1 H2].
  split; [symmetry; exact H1 | split; [symmetry; exact H2|]].
  symmetry. apply attempted_publishBatch.
Qed.

Lemma sameRecords_publishBatch p : sameRecords (publishBatch A p) p.
Proof.
  destruct (publishBatch_keeps p) as [H1 H2].
  split; [exact H1 | split; [exact H2 | apply attempted_publishBatch]].
Qed.

(** What [ingest] does to the records, whether or not it flushes, and
    when it hangs. *)
Lemma ingest_records p line :
  headerParsed (stateOf (ingest A p line)) = headerParsed p /\
  uuids (stateOf (ingest A p line))
  = uuids p + length (mappedFrom A (uuids p) [line]) /\
  attempted (stateOf (ingest A p line))
  = attempted p ++ mappedFrom A (uuids p) [line] /\
  returned (ingest A p line) = settles A line.
Proof.
  unfold ingest, settles. cbn [mappedFrom].
  destruct (parseCsvRow A line) as [parsed| |]; cbn [stateOf returned].
  - match goal with |- context [if ?c then _ else _] => destruct c end.
    + destruct (publishBatch_keeps
                  {| headerParsed := headerParsed p;
                     batch := batch p ++
                       [mapRow (Math_pow A) (HEADER_MAPPING A) (FIELD_TYPES A)
                               (randomUUID A (uuids p)) parsed];
                     sends := sends p; console := console p;
                     uuids := S (uuids p) |}) as [H1 H2].
      rewrite H1, H2, attempted_publishBatch.
      unfold attempted. cbn [headerParsed uuids sends batch length].
      rewrite app_assoc. repeat split; lia.
    + unfold attempted. cbn [headerParsed uuids sends batch length].
      rewrite app_assoc. repeat split; lia.
  - unfold attempted. cbn [headerParsed uuids sends batch length].
    rewrite app_nil_r. repeat split; lia.
  - rewrite app_nil_r. cbn [length]. repeat split; lia.
Qed.

Lemma mappedFrom_cons k l lines :
  settles A l = true ->
  mappedFrom A k (l :: lines)
  = mappedFrom A k [l] ++ mappedFrom A (k + length (mappedFrom A k [l])) lines.
Proof.
  unfold settles. cbn [mappedFrom].
  destruct (parseCsvRow A l); intros H; try discriminate H.
  - cbn [app length]. do 2 f_equal. lia.
  - cbn [app length]. rewrite Nat.add_0_r. reflexivity.
Qed.

Lemma mappedFrom_pending k l lines :
  settles A l = false -> mappedFrom A k (l :: lines) = [].
Proof.
  unfold settles. cbn [mappedFrom].
  destruct (parseCsvRow A l); intros H; try discriminate H. reflexivity.
Qed.

(** The loop of [nseFNO.js] over a run of lines. *)
Lemma forLines_ingest_records lines : forall p,
  let r := forLines (ingest A) lines p in
  headerParsed (stateOf r) = headerParsed p /\
  uuids (stateOf r) = uuids p + length (mappedFrom A (uuids p) lines) /\
  attempted (stateOf r) = attempted p ++ mappedFrom A (uuids p) lines /\
  returned r = forallb (settles A) lines.
Proof.
  induction lines as [|l lines IH]; intros p; cbv zeta.
  - cbn. rewrite Nat.add_0_r, app_nil_r. repeat split.
  - cbn [forLines forallb].
    destruct (ingest_records p l) as [G1 [G2 [G3 G4]]].
    destruct (ingest A p l) as [q|q] eqn:E; cbn [stateOf returned] in *.
    + destruct (IH q) as [H1 [H2 [H3 H4]]].
      rewrite (mappedFrom_cons (uuids p) l lines) by (symmetry; exact G4).
      rewrite H1, H2, H3, H4, G1, G2, G3, <- G4.
      rewrite length_app, <- app_assoc. repeat split. lia.
    + rewrite (mappedFrom_pending (uuids p) l lines) by (symmetry; exact G4).
      rewrite <- G4. rewrite G2, G3.
      rewrite (mappedFrom_pending (uuids p) l []) by (symmetry; exact G4).
      split; [exact G1 | split; [reflexivity | split; reflexivity]].
Qed.

Lemma withHeader_ingest b p line :
  ingest A (withHeader b p) line = mapRun (withHeader b) (ingest A p line).
Proof.
  unfold ingest. cbn [withHeader headerParsed batch sends console uuids].
  destruct (parseCsvRow A line); cbn [mapRun]; [|reflexivity|reflexivity].
  match goal with |- context [if ?c then _ else _] => destruct c end;
    [|reflexivity].
  unfold publishBatch. cbn [batch sends console uuids headerParsed].
  destruct (batch p ++ _); reflexivity.
Qed.

Lemma withHeader_forLines_ingest b lines : forall p,
  forLines (ingest A) lines (withHeader b p)
  = mapRun (withHeader b) (forLines (ingest A) lines p).
Proof.
  induction lines as [|l lines IH]; intros p; [reflexivity|].
  cbn [forLines]. rewrite withHeader_ingest.
  destruct (ingest A p l) as [q|q]; cbn [mapRun]; [apply IH | reflexivity].
Qed.

Lemma withHeader_same p : withHeader (headerParsed p) p = p.
Proof. destruct p; reflexivity. Qed.

Lemma withHeader_withHeader a b p : withHeader a (withHeader b p) = withHeader a p.
Proof. reflexivity. Qed.

(** The loop of [nseFNO.js] never touches [headerParsed]. *)
Lemma forLines_ingest_header lines p :
  mapRun (withHeader (headerParsed p)) (forLines (ingest A) lines p)
  = forLines (ingest A) lines p.
Proof.
  destruct (forLines_ingest_records lines p) as [H _]. cbv zeta in H.
  destruct (forLines (ingest A) lines p) as [q|q]; cbn [mapRun stateOf] in *;
    rewrite <- H, withHeader_same; reflexivity.
Qed.

Lemma Index2_forLines_seen lines : forall p,
  headerParsed p = true ->
  forLines (Index2.forLine A) lines p = forLines (ingest A) lines p.
Proof.
  induction lines as [|l lines IH]; intros p Hp; [reflexivity|].
  cbn [forLines]. unfold Index2.forLine at 1. rewrite Hp. cbn [negb andb].
  destruct (ingest_records p l) as [H _].
  destruct (ingest A p l) as [q|q]; [|reflexivity].
  apply IH. cbn [stateOf] in H. rewrite H. exact Hp.
Qed.

(** Apart from [headerParsed], the loop of [index2.js] does what that of
    [nseFNO.js] does on the lines that [dataLines] keeps. *)
Lemma Index2_forLines_dataLines lines : forall p,
  forLines (ingest A) (dataLines (headerParsed p) lines) p
  = mapRun (withHeader (headerParsed p)) (forLines (Index2.forLine A) lines p).
Proof.
  induction lines as [|l lines IH]; intros p.
  - cbn. rewrite withHeader_same. reflexivity.
  - cbn [forLines dataLines].
    unfold Index2.forLine at 1.
    destruct (headerParsed p) eqn:Hp; cbn [negb andb].
    + cbn [forLines].
      destruct (ingest_records p l) as [H _].
      destruct (ingest A p l) as [q|q]; cbn [stateOf mapRun] in *.
      * rewrite Hp in H. pose proof (IH q) as IHq. rewrite H in IHq. exact IHq.
      * rewrite Hp in H. rewrite <- (withHeader_same q) at 1. rewrite H.
        reflexivity.
    + destruct (startsWith l (lit "Membr id")) eqn:Hh.
      * rewrite Index2_forLines_seen by reflexivity.
        change {| headerParsed := true; batch := batch p; sends := sends p;
                  console := console p; uuids := uuids p |}
          with (withHeader true p).
        rewrite withHeader_forLines_ingest.
        rewrite <- (forLines_ingest_header lines p) at 1. rewrite Hp.
        destruct (forLines (ingest A) lines p); reflexivity.
      * cbn [forLines].
        destruct (ingest_records p l) as [H _].
        destruct (ingest A p l) as [q|q]; cbn [stateOf mapRun] in *.
        -- rewrite Hp in H. pose proof (IH q) as IHq. rewrite H in IHq. exact IHq.
        -- rewrite Hp in H. rewrite <- (withHeader_same q) at 1. rewrite H.
           reflexivity.
Qed.

Lemma Index2_forLine_header p l :
  (headerParsed p = true -> headerParsed (stateOf (Index2.forLine A p l)) = true) /\
  (returned (Index2.forLine A p l) = true ->
   headerParsed (stateOf (Index2.forLine A p l))
   = headerParsed p || startsWith l (lit "Membr id")).
Proof.
  unfold Index2.forLine. destruct (ingest_records p l) as [H _].
  destruct (headerParsed p) eqn:Hp; cbn [negb andb orb].
  - rewrite H. split; reflexivity.
  - destruct (startsWith l (lit "Membr id")); cbn [stateOf headerParsed].
    + split; [discriminate | reflexivity].
    + rewrite H. split; [discriminate | reflexivity].
Qed.

(** Once set, [headerParsed] stays set; a loop that returns has set it if
    it met a header line. *)
Lemma Index2_forLines_header lines : forall p,
  (headerParsed p = true ->
   headerParsed (stateOf (forLines (Index2.forLine A) lines p)) = true) /\
  (returned (forLines (Index2.forLine A) lines p) = true ->
   headerParsed (stateOf (forLines (Index2.forLine A) lines p))
   = headerParsed p || existsb (fun l => startsWith l (lit "Membr id")) lines).
Proof.
  induction lines as [|l lines IH]; intros p.
  - cbn. rewrite orb_false_r. split; [tauto | reflexivity].
  - cbn [forLines existsb].
    destruct (Index2_forLine_header p l) as [S1 S2].
    destruct (Index2.forLine A p l) as [q|q]; cbn [stateOf returned] in *.
    + destruct (IH q) as [I1 I2].
      split; [intros Hp; apply I1, S1, Hp|].
      intros Hr. rewrite (I2 Hr), (S2 eq_refl), orb_assoc. reflexivity.
    + split; [exact S1 | discriminate].
Qed.

(** The loop of [index2.js] over a run of lines. *)
Lemma forLines_Index2_records lines p :
  let r := forLines (Index2.forLine A) lines p in
  uuids (stateOf r)
  = uuids p + length (mappedFrom A (uuids p) (dataLines (headerParsed p) lines)) /\
  attempted (stateOf r)
  = attempted p ++ mappedFrom A (uuids p) (dataLines (headerParsed p) lines) /\
  returned r = forallb (settles A) (dataLines (headerParsed p) lines).
Proof.
  cbv zeta.
  destruct (forLines_ingest_records (dataLines (headerParsed p) lines) p)
    as [_ [H2 [H3 H4]]]. cbv zeta in H2, H3, H4.
  rewrite Index2_forLines_dataLines in H2, H3, H4.
  rewrite mapRun_stateOf in H2, H3. rewrite mapRun_returned in H4.
  unfold attempted in *. cbn [withHeader uuids sends batch] in H2, H3.
  split; [exact H2 | split; [exact H3 | exact H4]].
Qed.

(** One line keeps two pipelines with the same records in step. *)
Lemma forLine_sameRecords p q line :
  sameRecords p q ->
  returned (Index2.forLine A p line) = returned (Index2.forLine A q line) /\
  sameRecords (stateOf (Index2.forLine A p line))
              (stateOf (Index2.forLine A q line)).
Proof.
  intros [H1 [H2 H3]]. unfold Index2.forLine. rewrite <- H1.
  destruct (negb (headerParsed p) && startsWith line (lit "Membr id")).
  - cbn [returned stateOf]. split; [reflexivity|].
    unfold sameRecords, attempted in *. cbn [headerParsed uuids sends batch].
    split; [reflexivity | split; [exact H2 | exact H3]].
  - destruct (ingest_records p line) as [P1 [P2 [P3 P4]]].
    destruct (ingest_records q line) as [Q1 [Q2 [Q3 Q4]]].
    split; [rewrite P4, Q4; reflexivity|].
    unfold sameRecords. rewrite P1, P2, P3, Q1, Q2, Q3, H1, H2, H3.
    repeat split.
Qed.

Lemma forLines_sameRecords lines : forall p q,
  sameRecords p q ->
  returned (forLines (Index2.forLine A) lines p)
  = returned (forLines (Index2.forLine A) lines q) /\
  sameRecords (stateOf (forLines (Index2.forLine A) lines p))
              (stateOf (forLines (Index2.forLine A) lines q)).
Proof.
  induction lines as [|l lines IH]; intros p q H.
  - cbn. split; [reflexivity | exact H].
  - cbn [forLines].
    destruct (forLine_sameRecords p q l H) as [Hr Hs].
    destruct (Index2.forLine A p l) as [p'|p'];
      destruct (Index2.forLine A q l) as [q'|q'];
      cbn [returned stateOf] in *; try discriminate Hr.
    + apply IH. exact Hs.
    + split; [reflexivity | exact Hs].
Qed.

End Records.

(** X10: over any run of lines, the loop body of [index2.js] does what the
    loop body of [nseFNO.js] does on the lines left once the first line
    that starts with ["Membr id"] is taken out, wherever that line stands:
    the two loops return or hang alike and, [headerParsed] apart, leave the
    same pipeline. Every later such line is processed as data, and none is
    taken out once [headerParsed] is set; a loop of [index2.js] that
    returns has set [headerParsed] if it was set or such a line occurred. *)
Theorem Index2_skips_one_header_line A lines p :
  forLines (NseFNO.forLine A) (dataLines (headerParsed p) lines) p
  = mapRun (withHeader (headerParsed p)) (forLines (Index2.forLine A) lines p) /\
  (returned (forLines (Index2.forLine A) lines p) = true ->
   headerParsed (stateOf (forLines (Index2.forLine A) lines p))
   = headerParsed p || existsb (fun l => startsWith l (lit "Membr id")) lines).
Proof.
  split.
  - apply Index2_forLines_dataLines.
  - apply (Index2_forLines_header A lines p).
Qed.

(** X11: on ASCII content, the records a pass of [index2.js] hands to the
    bus or leaves in [batch] are, after those already there, the records
    of the lines whose promise is fulfilled, in the order of the file, one
    per line, with consecutive UUID draws, up to the first line whose
    promise stays pending: no record is dropped before a send is tried,
    and none is reordered. The pass returns exactly when every promise
    settles, and then [batch] is empty. *)
Theorem records_follow_file_order A st content :
  0 < chunkSize A -> offset st < length content ->
  ~ In LF (partialLine st) -> isAscii content ->
  let lines := removelast (split LF
                 (partialLine st ++ asciiText (skipn (offset st) content))) in
  let r := Index2.readFile A st content in
  let p' := pipe (stateOf r) in
  attempted p'
  = attempted (pipe st)
    ++ mappedFrom A (uuids (pipe st)) (dataLines (headerParsed (pipe st)) lines) /\
  uuids p'
  = uuids (pipe st)
    + length (mappedFrom A (uuids (pipe st))
                         (dataLines (headerParsed (pipe st)) lines)) /\
  returned r = forallb (settles A) (dataLines (headerParsed (pipe st)) lines) /\
  (returned r = true -> batch p' = []).
Proof.
  intros Hn Hlt Hp Hascii lines r p'. unfold p', r, Index2.readFile.
  destruct (readFileWith_ascii A (Index2.forLine A) st content Hn Hlt Hp Hascii)
    as [pos [q [_ E]]].
  cbv zeta in E. fold lines in E. rewrite E. clear E.
  destruct (forLines_Index2_records A lines (pipe st)) as [H1 [H2 H3]].
  cbv zeta in H1, H2, H3.
  destruct (forLines (Index2.forLine A) lines (pipe st)) as [p|p];
    cbn [stateOf returned pipe] in *.
  - destruct (publishBatch_keeps A p) as [_ K2].
    rewrite attempted_publishBatch, K2, H1, H2.
    split; [reflexivity | split; [reflexivity | split; [exact H3|]]].
    intros _. apply publishBatch_empties.
  - rewrite H1, H2.
    split; [reflexivity | split; [reflexivity | split; [exact H3 | discriminate]]].
Qed.

(** Witness of X11: a first pass on ["1,2,3\n4,5,6\n"]. *)
Lemma records_follow_file_order_witness :
  let A := abc 4 alwaysUp in
  let lines := removelast (split LF
                 (partialLine (boot None)
                  ++ asciiText (skipn (offset (boot None)) twoLines))) in
  attempted (pipe (stateOf (Index2.readFile A (boot None) twoLines)))
  = attempted (pipe (boot None))
    ++ mappedFrom A (uuids (pipe (boot None)))
                  (dataLines (headerParsed (pipe (boot None))) lines).
Proof.
  intros A lines.
  destruct (records_follow_file_order A (boot None) twoLines) as [H _].
  - vm_compute. lia.
  - vm_compute. lia.
  - vm_compute. intros H. exact H.
  - unfold isAscii, twoLines, bytes. cbn.
    repeat (apply Forall_cons; [reflexivity|]). apply Forall_nil.
  - exact H.
Defined.

(** X12: when an ASCII file grows between two passes of the same process,
    the first of which returns, the two passes together return or hang as
    one pass over the grown file does and hand over the same records in the
    same order with the same UUID draws; only the grouping into sends may
    differ. When they return they leave the same offset and fragment. *)
Theorem two_passes_equal_one A st c1 d :
  0 < chunkSize A ->
  offset st <= length c1 ->
  ~ In LF (partialLine st) ->
  isAscii (c1 ++ d) ->
  returned (Index2.readFile A st c1) = true ->
  let twice := Index2.readFile A (stateOf (Index2.readFile A st c1)) (c1 ++ d) in
  let once := Index2.readFile A st (c1 ++ d) in
  returned twice = returned once /\
  sameRecords (pipe (stateOf twice)) (pipe (stateOf once)) /\
  (returned once = true ->
   offset (stateOf twice) = offset (stateOf once) /\
   partialLine (stateOf twice) = partialLine (stateOf once)).
Proof.
  intros Hn Hle Hp Hascii Hfirst twice once.
  assert (Hascii1 : isAscii c1).
  { unfold isAscii in *. apply Forall_app in Hascii. tauto. }
  destruct (Nat.eq_dec (offset st) (length c1)) as [Heq|Hneq].
  - assert (Hnoop : Index2.readFile A st c1 = Returns st).
    { unfold Index2.readFile, readFileWith.
      replace (length c1 =? offset st) with true
        by (symmetry; apply Nat.eqb_eq; lia). reflexivity. }
    unfold twice, once. rewrite Hnoop. cbn [stateOf].
    split; [reflexivity | split; [apply sameRecords_refl | tauto]].
  - assert (Hlt : offset st < length c1) by lia.
    destruct (readFileWith_ascii A (Index2.forLine A) st c1 Hn Hlt Hp Hascii1)
      as [pos1 [q1 [_ E1]]].
    cbv zeta in E1. unfold Index2.readFile in Hfirst. rewrite E1 in Hfirst.
    destruct (forLines (Index2.forLine A)
                (removelast (split LF (partialLine st
                   ++ asciiText (skipn (offset st) c1)))) (pipe st))
      as [X|X] eqn:EX; [|discriminate Hfirst].
    clear Hfirst.
    destruct d as [|b d'].
    + unfold twice, once, Index2.readFile. rewrite app_nil_r, E1.
      match goal with |- context [stateOf (Returns ?x)] => set (st1 := x) end.
      cbn [stateOf].
      assert (Hnoop : readFileWith A (Index2.forLine A) st1 c1 = Returns st1).
      { unfold readFileWith, st1. cbn [offset].
        rewrite Nat.eqb_refl. reflexivity. }
      rewrite Hnoop. cbn [stateOf returned].
      split; [reflexivity | split; [apply sameRecords_refl | tauto]].
    + set (d := b :: d') in *.
      assert (Hlen : length c1 < length (c1 ++ d))
        by (rewrite length_app; unfold d; cbn [length]; lia).
      set (st1 := {| offset := length c1;
                     partialLine := last (split LF (partialLine st
                                       ++ asciiText (skipn (offset st) c1))) [];
                     pipe := publishBatch A X;
                     offsetFile := Some (length c1) |}).
      assert (Hp1 : ~ In LF (partialLine st1)).
      { unfold st1. cbn [partialLine]. apply split_no_LF. apply split_last. }
      unfold twice, once, Index2.readFile. rewrite E1. cbn [stateOf].
      fold st1.
      destruct (readFileWith_ascii A (Index2.forLine A) st1 (c1 ++ d)
                  Hn Hlen Hp1 Hascii) as [pos2 [q2 [_ E2]]].
      destruct (readFileWith_ascii A (Index2.forLine A) st (c1 ++ d)
                  Hn ltac:(lia) Hp Hascii) as [pos3 [q3 [_ E3]]].
      cbv zeta in E2, E3. rewrite E2, E3. clear E2 E3.
      unfold st1. cbn [offset partialLine pipe offsetFile].
      assert (Hs1 : skipn (length c1) (c1 ++ d) = d).
      { rewrite skipn_app, skipn_all, Nat.sub_diag. reflexivity. }
      assert (Hs2 : skipn (offset st) (c1 ++ d) = skipn (offset st) c1 ++ d).
      { rewrite skipn_app.
        replace (offset st - length c1) with 0 by lia. reflexivity. }
      rewrite Hs1, Hs2. unfold asciiText in *. rewrite map_app.
      set (T1 := map Byte.to_N (skipn (offset st) c1)) in *.
      set (Td := map Byte.to_N d).
      pose proof (app_assoc (partialLine st) T1 Td) as A1.
      pose proof (last_split_app LF (partialLine st ++ T1) Td) as A2.
      pose proof (removelast_split_app LF (partialLine st ++ T1) Td) as A3.
      unfold jsstring, jschar in *.
      rewrite A1, A2, A3.
      rewrite forLines_app, EX. cbn [andThen].
      destruct (forLines_sameRecords A
                  (removelast (split LF
                     (last (split LF (partialLine st ++ T1)) [] ++ Td)))
                  (publishBatch A X) X (sameRecords_publishBatch A X))
        as [Hr Hs].
      destruct (forLines (Index2.forLine A) _ (publishBatch A X)) as [u|u];
        destruct (forLines (Index2.forLine A) _ X) as [w|w];
        cbn [returned stateOf pipe offset partialLine] in *;
        try discriminate Hr.
      * split; [reflexivity|]. split; [|intros _; split; reflexivity].
        eapply sameRecords_trans; [apply sameRecords_publishBatch|].
        eapply sameRecords_trans; [exact Hs | apply sameRecords_sym_publishBatch].
      * split; [reflexivity|]. split; [exact Hs | discriminate].
Qed.

(** Witness of X12: ["1,2,3\n4,5"] grows to ["1,2,3\n4,5,6\n"] between two
    passes. *)
Lemma two_passes_equal_one_witness :
  let A := abc 4 alwaysUp in
  let twice := Index2.readFile A
                 (stateOf (Index2.readFile A (boot None) partialAtEof))
                 (partialAtEof ++ completion46) in
  let once := Index2.readFile A (boot None) (partialAtEof ++ completion46) in
  returned twice = returned once /\
  sameRecords (pipe (stateOf twice)) (pipe (stateOf once)) /\
  (returned once = true ->
   offset (stateOf twice) = offset (stateOf once) /\
   partialLine (stateOf twice) = partialLine (stateOf once)).
Proof.
  intros A.
  apply (two_passes_equal_one A (boot None) partialAtEof completion46).
  - vm_compute. lia.
  - vm_compute. lia.
  - vm_compute. intros H. exact H.
  - unfold isAscii, partialAtEof, completion46, bytes. cbn.
    repeat (apply Forall_cons; [reflexivity|]). apply Forall_nil.
  - vm_compute. reflexivity.
Defined.

(** ** Invariants of the pipeline *)

Section PipelineInvariants.

Variable A : agent.

(** The [for] loop keeps every property that its body keeps, whether the
    body returns or hangs. *)
Lemma forLines_invariant (St : Type) (I : St -> Prop) (f : St -> jsstring -> run St)
    (Hf : forall s line, I s -> I (stateOf (f s line))) lines :
  forall s, I s -> I (stateOf (forLines f lines s)).
Proof.
  induction lines as [|l lines IH]; intros s Hs; [exact Hs|].
  cbn [forLines]. pose proof (Hf s l Hs) as H.
  destruct (f s l) as [s'|s']; [apply IH; exact H | exact H].
Qed.

(** And so does the read loop. *)
Lemma readLoop_invariant (St : Type) (I : St -> Prop) (f : St -> jsstring -> run St)
    (Hf : forall s line, I s -> I (stateOf (f s line))) n content size :
  forall fuel position partial s,
  I s -> I (snd (stateOf (readLoop f n fuel content size position partial s))).
Proof.
  induction fuel as [|fuel IH]; intros position partial s Hs; [exact Hs|].
  cbn [readLoop].
  destruct (position <? size); [|exact Hs].
  destruct (_ =? 0); [exact Hs|].
  pose proof (forLines_invariant St I f Hf
    (removelast (split LF (partial ++ Buffer_toString
       (firstn (Nat.min n (size - position)) (skipn position content))))) s Hs)
    as H.
  destruct (forLines f _ s) as [s'|s']; [apply IH; exact H | exact H].
Qed.

Lemma wellBatched_publishBatch p :
  Forall (withinBatchSize A) (sendSizes p) ->
  length (batch p) <= Nat.max 1 (batchSize A) ->
  wellBatched A (publishBatch A p).
Proof.
  intros Hs Hb. unfold wellBatched, publishBatch.
  destruct (batch p) as [|r b] eqn:E.
  - rewrite E. split; [exact Hs | cbn [length]; lia].
  - unfold sendSizes in *. cbn [sends batch length].
    split; [|lia].
    rewrite map_app. apply Forall_app. split; [exact Hs|].
    cbn [map]. apply Forall_cons; [|apply Forall_nil].
    unfold withinBatchSize. cbn [length] in *. lia.
Qed.

Lemma wellBatched_ingest p line :
  wellBatched A p -> wellBatched A (stateOf (ingest A p line)).
Proof.
  intros [Hs Hb]. unfold ingest.
  destruct (parseCsvRow A line) as [parsed| |]; cbn [stateOf].
  - cbv zeta. cbn [batch].
    destruct (batchSize A <=? _) eqn:Hfull.
    + apply wellBatched_publishBatch; cbn [sends batch]; [exact Hs|].
      rewrite length_app. cbn [length]. lia.
    + apply Nat.leb_gt in Hfull. split; [exact Hs|].
      cbn [batch] in *. rewrite length_app in *. cbn [length] in *. lia.
  - split; [exact Hs | exact Hb].
  - split; [exact Hs | exact Hb].
Qed.

Lemma wellBatched_Index2_forLine p line :
  wellBatched A p -> wellBatched A (stateOf (Index2.forLine A p line)).
Proof.
  intros H. unfold Index2.forLine.
  destruct (negb (headerParsed p) && startsWith line (lit "Membr id"));
    [exact H | apply wellBatched_ingest; exact H].
Qed.

(** A property of runs that every pass keeps holds of any sequence of
    passes. *)
Lemma passes_keep_run (f : pipeline -> jsstring -> run pipeline)
    (J : run state -> Prop)
    (Hr : forall st content, J (Returns st) -> J (readFileWith A f st content))
    contents :
  forall r, J r ->
  J (fold_left (fun r content => andThen r (fun st => readFileWith A f st content))
               contents r).
Proof.
  induction contents as [|c contents IH]; intros r H; [exact H|].
  cbn [fold_left]. apply IH.
  destruct r as [st|st]; cbn [andThen]; [apply Hr; exact H | exact H].
Qed.

(** What holds of the batch after a pass: within its limit, and empty when
    the pass returned. *)
Lemma betweenPasses_readFileWith (f : pipeline -> jsstring -> run pipeline)
    (Hf : forall p line, wellBatched A p -> wellBatched A (stateOf (f p line)))
    st content :
  betweenPasses A (Returns st) -> betweenPasses A (readFileWith A f st content).
Proof.
  intros [H Hb]. unfold readFileWith.
  destruct (length content =? offset st); [split; assumption|].
  pose proof (readLoop_invariant pipeline (wellBatched A) f Hf (chunkSize A) content
                (length content) (length content - offset st) (offset st)
                (partialLine st) (pipe st) H) as [Hs Hl].
  destruct (readLoop _ _ _ _ _ _ _ _) as [[[position partial] p]|[[position partial] p]];
    cbn [snd stateOf] in Hs, Hl; unfold betweenPasses; cbn [stateOf returned saveOffset pipe].
  - split; [|intros _; apply publishBatch_empties].
    apply wellBatched_publishBatch; [exact Hs | lia].
  - split; [split; assumption | discriminate].
Qed.

Lemma logged_publishBatch p : logged p -> logged (publishBatch A p).
Proof.
  unfold logged, busLines, publishBatch. intros H.
  destruct (batch p) as [|r b] eqn:E; [exact H|].
  cbn [console sends]. rewrite filter_app, map_app, H. f_equal.
  unfold logOfSend. cbn [map fst snd filter].
  destruct (producer_send A (length (sends p))); reflexivity.
Qed.

Lemma logged_ingest p line : logged p -> logged (stateOf (ingest A p line)).
Proof.
  intros H. unfold ingest.
  destruct (parseCsvRow A line) as [parsed| |]; cbn [stateOf].
  - cbv zeta. destruct (batchSize A <=? _).
    + apply logged_publishBatch. exact H.
    + exact H.
  - unfold logged, busLines in *. cbn [console sends].
    rewrite filter_app, H. cbn [filter]. apply app_nil_r.
  - exact H.
Qed.

Lemma logged_Index2_forLine p line :
  logged p -> logged (stateOf (Index2.forLine A p line)).
Proof.
  intros H. unfold Index2.forLine.
  destruct (negb (headerParsed p) && startsWith line (lit "Membr id"));
    [exact H | apply logged_ingest; exact H].
Qed.

Lemma logged_readFileWith (f : pipeline -> jsstring -> run pipeline)
    (Hf : forall p line, logged p -> logged (stateOf (f p line)))
    st content :
  logged (pipe st) -> logged (pipe (stateOf (readFileWith A f st content))).
Proof.
  intros H. unfold readFileWith.
  destruct (length content =? offset st); [exact H|].
  pose proof (readLoop_invariant pipeline logged f Hf (chunkSize A) content
                (length content) (length content - offset st) (offset st)
                (partialLine st) (pipe st) H) as Hl.
  destruct (readLoop _ _ _ _ _ _ _ _) as [[[position partial] p]|[[position partial] p]];
    cbn [snd stateOf] in Hl; cbn [stateOf saveOffset pipe].
  - apply logged_publishBatch. exact Hl.
  - exact Hl.
Qed.

Lemma parseErrors_publishBatch p : parseErrors (publishBatch A p) = parseErrors p.
Proof.
  unfold parseErrors, publishBatch.
  destruct (batch p) as [|r b]; [reflexivity|].
  cbn [console]. rewrite filter_app, length_app.
  destruct (producer_send A (length (sends p))); cbn [filter length]; lia.
Qed.

(** A line whose promise settles is counted once: as a record or as a
    parse error. *)
Lemma accounted_ingest p line :
  returned (ingest A p line) = true ->
  S (uuids p + parseErrors p)
  = uuids (stateOf (ingest A p line)) + parseErrors (stateOf (ingest A p line)).
Proof.
  unfold ingest.
  destruct (parseCsvRow A line) as [parsed| |]; cbn [stateOf returned];
    [| |discriminate]; intros _.
  - cbv zeta. destruct (batchSize A <=? _).
    + rewrite parseErrors_publishBatch.
      destruct (publishBatch_keeps A
        {| headerParsed := headerParsed p;
           batch := batch p ++
             [mapRow (Math_pow A) (HEADER_MAPPING A) (FIELD_TYPES A)
                     (randomUUID A (uuids p)) parsed];
           sends := sends p; console := console p; uuids := S (uuids p) |})
        as [K1 K2].
      rewrite K2. cbn [uuids]. unfold parseErrors. cbn [console]. lia.
    + unfold parseErrors. cbn [uuids console]. lia.
  - unfold parseErrors. cbn [uuids console].
    rewrite filter_app, length_app. cbn [filter length]. lia.
Qed.

End PipelineInvariants.

(** X13: after any sequence of passes, every send ever made, the failed
    ones included, carried at least one record and at most [batchSize]
    records (one record when [batchSize] is below 1), and [batch] is below
    that limit; when the passes have all returned [batch] is empty. This
    holds in both scripts for any sequence of file contents, any chunk size
    and any outcome of the parser and of the bus. *)
Theorem sends_are_within_batchSize A saved contents :
  let r := passes (Index2.readFile A) (boot saved) contents in
  let s := passes (NseFNO.readFile A) (boot saved) contents in
  (Forall (withinBatchSize A) (sendSizes (pipe (stateOf r))) /\
   length (batch (pipe (stateOf r))) < Nat.max 1 (batchSize A) /\
   (returned r = true -> batch (pipe (stateOf r)) = [])) /\
  (Forall (withinBatchSize A) (sendSizes (pipe (stateOf s))) /\
   length (batch (pipe (stateOf s))) < Nat.max 1 (batchSize A) /\
   (returned s = true -> batch (pipe (stateOf s)) = [])).
Proof.
  assert (H0 : betweenPasses A (Returns (boot saved))).
  { split; [split; [apply Forall_nil | cbn [stateOf boot pipe batch length]; lia]
           | reflexivity]. }
  split.
  - destruct (passes_keep_run A (Index2.forLine A) (betweenPasses A)
                (betweenPasses_readFileWith A (Index2.forLine A)
                   (wellBatched_Index2_forLine A))
                contents (Returns (boot saved)) H0) as [[H1 H2] H3].
    split; [exact H1 | split; [exact H2 | exact H3]].
  - destruct (passes_keep_run A (NseFNO.forLine A) (betweenPasses A)
                (betweenPasses_readFileWith A (NseFNO.forLine A)
                   (wellBatched_ingest A))
                contents (Returns (boot saved)) H0) as [[H1 H2] H3].
    split; [exact H1 | split; [exact H2 | exact H3]].
Qed.

(** X14: the console tells the sends apart exactly: in both scripts, after
    any passes, the lines logged by [publishBatch] are, in order, one per
    send: [Published n] with the number of records of a send that
    succeeded, the Kafka error for one that failed. *)
Theorem console_follows_the_sends A saved contents :
  let p := pipe (stateOf (passes (Index2.readFile A) (boot saved) contents)) in
  let q := pipe (stateOf (passes (NseFNO.readFile A) (boot saved) contents)) in
  busLines p = map logOfSend (sends p) /\
  busLines q = map logOfSend (sends q).
Proof.
  assert (H0 : logged (pipe (boot saved))) by reflexivity.
  split.
  - apply (passes_keep A (Index2.forLine A) (fun st => logged (pipe st))
             (logged_readFileWith A (Index2.forLine A) (logged_Index2_forLine A))
             contents (Returns (boot saved)) H0).
  - apply (passes_keep A (NseFNO.forLine A) (fun st => logged (pipe st))
             (logged_readFileWith A (NseFNO.forLine A) (logged_ingest A))
             contents (Returns (boot saved)) H0).
Qed.

Lemma accounted_line A p l :
  returned (Index2.forLine A p l) = true ->
  S (uuids p + parseErrors p + Nat.b2n (headerParsed p))
  = uuids (stateOf (Index2.forLine A p l))
    + parseErrors (stateOf (Index2.forLine A p l))
    + Nat.b2n (headerParsed (stateOf (Index2.forLine A p l))).
Proof.
  unfold Index2.forLine.
  destruct (negb (headerParsed p) && startsWith l (lit "Membr id")) eqn:Hd.
  - intros _. apply andb_prop in Hd. destruct Hd as [Hd _].
    destruct (headerParsed p); [discriminate Hd|].
    unfold parseErrors. cbn [stateOf uuids console headerParsed Nat.b2n]. lia.
  - intros Hr. pose proof (accounted_ingest A p l Hr) as Hacc.
    destruct (ingest_records A p l) as [Hh _]. rewrite Hh. lia.
Qed.

Lemma accounted_lines A lines : forall p,
  returned (forLines (Index2.forLine A) lines p) = true ->
  length lines + uuids p + parseErrors p + Nat.b2n (headerParsed p)
  = uuids (stateOf (forLines (Index2.forLine A) lines p))
    + parseErrors (stateOf (forLines (Index2.forLine A) lines p))
    + Nat.b2n (headerParsed (stateOf (forLines (Index2.forLine A) lines p))).
Proof.
  induction lines as [|l lines IH]; intros p.
  - cbn [forLines length stateOf]. lia.
  - cbn [forLines length].
    pose proof (accounted_line A p l) as Hone.
    destruct (Index2.forLine A p l) as [q|q]; cbn [stateOf returned] in *;
      [|discriminate].
    intros Hr. specialize (IH q Hr). specialize (Hone eq_refl). lia.
Qed.

(** A line whose promise stays pending changes nothing. *)
Lemma Index2_forLine_hangs A p l :
  returned (Index2.forLine A p l) = false ->
  stateOf (Index2.forLine A p l) = p.
Proof.
  unfold Index2.forLine, ingest.
  destruct (negb (headerParsed p) && startsWith l (lit "Membr id"));
    [discriminate|].
  destruct (parseCsvRow A l); cbn [returned stateOf];
    [discriminate | discriminate | reflexivity].
Qed.

Lemma unaccounted_lines A lines : forall p,
  returned (forLines (Index2.forLine A) lines p) = false ->
  uuids (stateOf (forLines (Index2.forLine A) lines p))
  + parseErrors (stateOf (forLines (Index2.forLine A) lines p))
  + Nat.b2n (headerParsed (stateOf (forLines (Index2.forLine A) lines p)))
  < length lines + uuids p + parseErrors p + Nat.b2n (headerParsed p).
Proof.
  induction lines as [|l lines IH]; intros p.
  - cbn [forLines returned]. discriminate.
  - cbn [forLines length].
    pose proof (accounted_line A p l) as Hone.
    pose proof (Index2_forLine_hangs A p l) as Hhang.
    destruct (Index2.forLine A p l) as [q|q]; cbn [stateOf returned] in *.
    + intros Hr. specialize (IH q Hr). specialize (Hone eq_refl). lia.
    + intros _. rewrite (Hhang eq_refl). lia.
Qed.

(** X15: the [for] loop of [index2.js] returns exactly when the promise of
    every line it parses settles, the header line not being parsed; a loop
    that returns accounts for every line it was given: a line is the one
    header line, or it draws one UUID and queues one record, or it logs one
    parse error. A loop that hangs has accounted for fewer lines than it was
    given: the line whose promise stays pending is neither mapped nor
    logged. In every case each UUID drawn belongs to one record handed to
    the bus or waiting in [batch]. *)
Theorem every_line_is_accounted_for A lines p :
  let r := forLines (Index2.forLine A) lines p in
  let p' := stateOf r in
  returned r = forallb (settles A) (dataLines (headerParsed p) lines) /\
  (returned r = true ->
   length lines + uuids p + parseErrors p + Nat.b2n (headerParsed p)
   = uuids p' + parseErrors p' + Nat.b2n (headerParsed p')) /\
  (returned r = false ->
   uuids p' + parseErrors p' + Nat.b2n (headerParsed p')
   < length lines + uuids p + parseErrors p + Nat.b2n (headerParsed p)) /\
  length (attempted p') + uuids p = length (attempted p) + uuids p'.
Proof.
  cbv zeta.
  destruct (forLines_Index2_records A lines p) as [H1 [H2 H3]].
  cbv zeta in H1, H2, H3.
  split; [exact H3|]. split; [apply accounted_lines|].
  split; [apply unaccounted_lines|].
  rewrite H1, H2, length_app. lia.
Qed.

(** ** Trailing commas *)

Lemma all_commas s : forallb (N.eqb 44) s = true -> s = repeat 44%N (length s).
Proof.
  induction s as [|c s IH]; intros H; [reflexivity|].
  cbn [forallb] in H. apply andb_prop in H. destruct H as [Hc Hs].
  apply N.eqb_eq in Hc. subst c. cbn [length repeat]. f_equal. exact (IH Hs).
Qed.

Lemma repeat_commas k : forallb (N.eqb 44) (repeat 44%N k) = true.
Proof. induction k as [|k IH]; [reflexivity | exact IH]. Qed.

(** X16: [cleanCsvLine] returns the trimmed line without its final run of
    commas: the trimmed line is the result followed by commas only, and the
    result does not end with a comma. *)
Theorem cleanCsvLine_drops_final_commas line :
  exists k, trim line = cleanCsvLine line ++ repeat 44%N k /\
            last (cleanCsvLine line) 0%N <> 44%N.
Proof.
  unfold cleanCsvLine. generalize (trim line) as s. intros s.
  induction s as [|c s IH].
  - exists 0. split; [reflexivity | discriminate].
  - cbn [replaceTrailingCommas].
    destruct (N.eqb c 44 && forallb (N.eqb 44) s) eqn:Hm.
    + apply andb_prop in Hm. destruct Hm as [Hc Hs].
      apply N.eqb_eq in Hc. subst c.
      exists (S (length s)). cbn [app repeat last].
      split; [f_equal; exact (all_commas s Hs) | discriminate].
    + destruct IH as [k [Hs Hl]]. exists k.
      split; [cbn [app]; f_equal; exact Hs|].
      destruct (replaceTrailingCommas s) as [|d t] eqn:Hr.
      * cbn [last]. intros ->.
        cbn [app] in Hs. rewrite Hs, repeat_commas in Hm. discriminate Hm.
      * rewrite last_cons2 by discriminate. exact Hl.
Qed.

(** ** Objects built by a loop of assignments *)

Section FoldSet.

Variables X V : Type.
Variable name : X -> key.
Variable val : X -> V.

Lemma fold_set_get_old xs : forall acc k,
  ~ In k (map name xs) ->
  get k (fold_left (fun acc x => set (name x) (val x) acc) xs acc) = get k acc.
Proof.
  induction xs as [|x xs IH]; intros acc k Hnin; [reflexivity|].
  cbn in Hnin. cbn [fold_left]. rewrite IH by tauto.
  apply get_set_other. intros ->. tauto.
Qed.

Lemma fold_set_get xs : forall acc x,
  NoDup (map name xs) -> In x xs ->
  get (name x) (fold_left (fun acc x => set (name x) (val x) acc) xs acc)
  = Some (val x).
Proof.
  induction xs as [|y xs IH]; intros acc x Hnd Hin; [destruct Hin|].
  inversion Hnd as [|? ? Hnin Hnd']; subst. cbn [fold_left].
  destruct Hin as [->|Hin].
  - rewrite fold_set_get_old by exact Hnin. apply get_set_same.
  - apply IH; assumption.
Qed.

Lemma set_new k (v : V) o : ~ In k (keys o) -> set k v o = o ++ [(k, v)].
Proof.
  unfold keys. induction o as [|[k' v'] o IH]; intros Hnin; [reflexivity|].
  cbn in *. destruct (keq k k') eqn:E.
  - apply keq_eq in E. subst k'. tauto.
  - rewrite IH by tauto. reflexivity.
Qed.

Lemma fold_set_fresh xs : forall acc,
  NoDup (map name xs) ->
  (forall k, In k (map name xs) -> ~ In k (keys acc)) ->
  fold_left (fun acc x => set (name x) (val x) acc) xs acc
  = acc ++ map (fun x => (name x, val x)) xs.
Proof.
  induction xs as [|x xs IH]; intros acc Hnd Hdisj; cbn [fold_left map].
  - symmetry. apply app_nil_r.
  - inversion Hnd as [|? ? Hnin Hnd']; subst.
    rewrite set_new by (apply Hdisj; left; reflexivity).
    rewrite IH.
    + rewrite <- app_assoc. reflexivity.
    + exact Hnd'.
    + intros k Hk. unfold keys. rewrite map_app, in_app_iff. cbn.
      intros [H|[H|[]]].
      * apply (Hdisj k); [right; exact Hk | exact H].
      * subst k. contradiction.
Qed.

End FoldSet.

Lemma fold_left_ext {S0 X : Type} (f g : S0 -> X -> S0) :
  (forall a x, f a x = g a x) ->
  forall xs a, fold_left f xs a = fold_left g xs a.
Proof.
  intros H. induction xs as [|x xs IH]; intros a; [reflexivity|].
  cbn [fold_left]. rewrite H. apply IH.
Qed.

(** ** Rows of [server.js] *)

Section ServerRows.

Variable pow : number -> number -> number.
Variable HM : object key.
Variable FT : object ftype.

Lemma parseRow_get r h :
  NoDup (keys FT) ->
  get h (ServerRow.parseRow pow FT r)
  = match get h FT with
    | Some t => Some (Server.parseValue pow (get h r) t)
    | None => None
    end.
Proof.
  intros Hnd. unfold ServerRow.parseRow.
  rewrite (fold_left_ext _
    (fun acc x => set (fst x) (Server.parseValue pow (get (fst x) r) (snd x)) acc))
    by (intros a [k t]; reflexivity).
  rewrite fold_set_fresh; [|exact Hnd|intros k _ []].
  cbn [app]. clear Hnd.
  induction FT as [|[k t] ft IH]; [reflexivity|].
  cbn [map get fst snd]. destruct (keq h k) eqn:E; [|exact IH].
  apply keq_eq in E. subst k. reflexivity.
Qed.

Lemma mapRow_get r h d :
  NoDup (map snd HM) -> In (h, d) HM ->
  get d (ServerRow.mapRow HM r) = Some (ServerRow.orNull (get h r)).
Proof.
  intros Hnd Hin. unfold ServerRow.mapRow.
  rewrite (fold_left_ext _
    (fun acc x => set (snd x) (ServerRow.orNull (get (fst x) r)) acc))
    by (intros a [k f]; reflexivity).
  apply (fold_set_get _ _ snd (fun x => ServerRow.orNull (get (fst x) r))
           HM [] (h, d) Hnd Hin).
Qed.

End ServerRows.

(** X17: in [server.js], with distinct keys in [FIELD_TYPES] and distinct
    output names in [HEADER_MAPPING], the stored field of a column is the
    coercion of its cell passed through [value || null] when the column has
    a type; a column of [HEADER_MAPPING] that [FIELD_TYPES] does not list
    is stored as the empty string whatever the row holds. *)
Theorem server_row_field pow HM FT r h d :
  NoDup (keys FT) -> NoDup (map snd HM) -> In (h, d) HM ->
  get d (ServerRow.mapRow HM (ServerRow.parseRow pow FT r))
  = Some (match get h FT with
          | Some t => ServerRow.orNull (Some (Server.parseValue pow (get h r) t))
          | None => JStr []
          end).
Proof.
  intros Hft Hhm Hin.
  rewrite (mapRow_get HM _ h d Hhm Hin), (parseRow_get pow FT r h Hft).
  destruct (get h FT); reflexivity.
Qed.

(** Witness of X17: the column [tag], which has no type, of a row that
    holds ["x"] there. *)
Lemma server_row_field_witness :
  get (key_of "tag") (ServerRow.mapRow qtyAndTag
                        (ServerRow.parseRow exactPow qtyOnly rowQtyTag))
  = Some (JStr []).
Proof.
  refine (eq_trans (server_row_field exactPow qtyAndTag qtyOnly rowQtyTag
                      (key_of "tag") (key_of "tag") _ _ _) _).
  - vm_compute. repeat (constructor; [intros H; repeat destruct H as [H|H]; try discriminate H; exact H|]).
    constructor.
  - vm_compute. repeat (constructor; [intros H; repeat destruct H as [H|H]; try discriminate H; exact H|]).
    constructor.
  - right. left. reflexivity.
  - vm_compute. reflexivity.
Defined.

Lemma dropWhile_nil (p : jschar -> bool) s :
  dropWhile p s = [] -> forallb p s = true.
Proof.
  induction s as [|c s IH]; intros H; [reflexivity|].
  cbn in *. destruct (p c); [exact (IH H) | discriminate H].
Qed.

Lemma trim_nonempty c s : isWhiteSpace c = false -> trim (c :: s) <> [].
Proof.
  intros Hc. unfold trim, trimStart. rewrite dropWhile_head by exact Hc.
  unfold trimEnd. intros H.
  apply (f_equal (@rev jschar)) in H. rewrite rev_involutive in H. cbn [rev] in H.
  apply dropWhile_nil in H. rewrite forallb_app in H.
  cbn [forallb] in H. rewrite Hc, andb_false_r in H. discriminate H.
Qed.

(** X18: in [server.js] a cell of an [int] column whose leading digits
    denote zero (["0"], ["000"], ["0.75"]) is stored as [null]: the number
    0 does not survive [value || null]. *)
Theorem server_zero_is_null pow HM FT (r : row) h d (ds rest : jsstring) :
  NoDup (keys FT) -> NoDup (map snd HM) -> In (h, d) HM ->
  get h FT = Some TInt ->
  get h r = Some (ds ++ rest) ->
  ds <> [] -> forallb isDigit ds = true ->
  match rest with [] => True | c :: _ => isDigit c = false end ->
  decimalValue ds = 0%Z ->
  get d (ServerRow.mapRow HM (ServerRow.parseRow pow FT r)) = Some JNull.
Proof.
  intros Hft Hhm Hin Ht Hr Hne Hd Hrest Hz.
  rewrite (mapRow_get HM _ h d Hhm Hin), (parseRow_get pow FT r h Hft), Ht, Hr.
  f_equal.
  pose proof (parseValue_int_digits pow ds rest Hne Hd Hrest) as Hp.
  destruct ds as [|c ds']; [congruence|].
  cbn [forallb] in Hd. apply andb_prop in Hd. destruct Hd as [Hc Hd'].
  unfold Server.parseValue.
  pose proof (trim_nonempty c (ds' ++ rest) (digit_not_space c Hc)) as Htrim.
  cbn [app] in *.
  destruct (trim (c :: ds' ++ rest)) as [|t0 t1]; [congruence|].
  unfold parseValue in Hp. injection Hp as Hp.
  rewrite Hp, Hz. reflexivity.
Qed.

(** Witness of X18: the cell ["0"] of the [int] column [qty]. *)
Lemma server_zero_is_null_witness :
  get (key_of "qty") (ServerRow.mapRow qtyAndTag
                        (ServerRow.parseRow exactPow qtyOnly rowQtyTag))
  = Some JNull.
Proof.
  apply (server_zero_is_null exactPow qtyAndTag qtyOnly rowQtyTag
           (key_of "qty") (key_of "qty") (lit "0") []).
  - vm_compute. repeat (constructor; [intros H; repeat destruct H as [H|H]; try discriminate H; exact H|]).
    constructor.
  - vm_compute. repeat (constructor; [intros H; repeat destruct H as [H|H]; try discriminate H; exact H|]).
    constructor.
  - left. reflexivity.
  - vm_compute. reflexivity.
  - vm_compute. reflexivity.
  - discriminate.
  - vm_compute. reflexivity.
  - exact I.
  - vm_compute. reflexivity.
Defined.

(** ** The parser of the line-reader agent *)

Lemma length_split sep s :
  length (split sep s) = S (length (filter (N.eqb sep) s)).
Proof.
  induction s as [|c s IH]; [reflexivity|].
  cbn [split filter]. rewrite (N.eqb_sym sep c).
  destruct (N.eqb c sep).
  - cbn [length]. rewrite IH. reflexivity.
  - pose proof (split_nonempty sep s) as Hne.
    destruct (split sep s) as [|x t]; [congruence|]. exact IH.
Qed.

Lemma map_fst_combine {X Y : Type} (xs : list X) : forall (ys : list Y),
  length ys = length xs -> map fst (combine xs ys) = xs.
Proof.
  induction xs as [|x xs IH]; intros [|y ys] H; try discriminate H; [reflexivity|].
  cbn. f_equal. apply IH. cbn in H. lia.
Qed.

Lemma map_combine_snd {X Y Z : Type} (f : Y -> Z) (xs : list X) :
  forall (ys : list Y),
  map (fun e => (fst e, f (snd e))) (combine xs ys) = combine xs (map f ys).
Proof.
  induction xs as [|x xs IH]; intros [|y ys]; try reflexivity.
  cbn. f_equal. apply IH.
Qed.

(** X19: the parser of the line-reader agent accepts a line exactly when it
    has one comma fewer than there are headers, and then, the headers being
    distinct, pairs the headers in order with the trimmed pieces between
    the commas; quotes have no meaning to it. *)
Theorem readline_parser_pairs_by_position headers line :
  NoDup headers ->
  Readline.parseCsvRow headers line
  = if S (commas line) =? length headers
    then Some (combine headers (map trim (split 44%N line)))
    else None.
Proof.
  intros Hnd. unfold Readline.parseCsvRow, commas. cbv zeta.
  rewrite length_split.
  destruct (S (length (filter (N.eqb 44) line)) =? length headers) eqn:E;
    [|reflexivity].
  cbn [negb]. f_equal.
  apply Nat.eqb_eq in E. rewrite <- length_split in E.
  rewrite (fold_left_ext _
    (fun (acc : row) (x : key * jsstring) => set (fst x) (trim (snd x)) acc))
    by (intros a [k v]; reflexivity).
  rewrite (fold_set_fresh (key * jsstring) jsstring fst
             (fun x => trim (snd x))).
  - cbn [app]. apply map_combine_snd.
  - rewrite map_fst_combine by exact E. exact Hnd.
  - intros k _ [].
Qed.

(** Witness of X19: the line ["1, 2 ,3"] under the headers [A], [B], [C]. *)
Lemma readline_parser_pairs_by_position_witness :
  Readline.parseCsvRow [key_of "A"; key_of "B"; key_of "C"] (lit "1, 2 ,3")
  = Some [(key_of "A", lit "1"); (key_of "B", lit "2"); (key_of "C", lit "3")].
Proof.
  refine (eq_trans (readline_parser_pairs_by_position
                      [key_of "A"; key_of "B"; key_of "C"] (lit "1, 2 ,3") _) _).
  - vm_compute. repeat (constructor; [intros H; repeat destruct H as [H|H]; try discriminate H; exact H|]).
    constructor.
  - vm_compute. reflexivity.
Defined.

(** ** The name of the offset file *)

Lemma no_sep_split sep p : ~ In sep p -> split sep p = [p].
Proof.
  induction p as [|c p IH]; intros H; [reflexivity|].
  cbn [split]. destruct (N.eqb c sep) eqn:Hc.
  - apply N.eqb_eq in Hc. exfalso. apply H. left. exact Hc.
  - rewrite IH by (intros Hin; apply H; right; exact Hin). reflexivity.
Qed.

Lemma split_after_sep sep dir name :
  ~ In sep name ->
  exists front, front <> [] /\ split sep (dir ++ sep :: name) = front ++ [name].
Proof.
  intros Hn. induction dir as [|c dir [front [Hf IH]]].
  - exists [[]]. split; [discriminate|].
    cbn [app split]. rewrite N.eqb_refl, no_sep_split by exact Hn. reflexivity.
  - cbn [app split]. rewrite IH. destruct (N.eqb c sep).
    + exists ([] :: front). split; [discriminate | reflexivity].
    + destruct front as [|f fs]; [congruence|].
      exists ((c :: f) :: fs). split; [discriminate | reflexivity].
Qed.

(** X20: the offset file of a CSV file is named after the last segment of
    its path only: for a file name without ["/"], whatever directory the
    path gives, the name is [offsetFilePath/name.offset], so CSV files of
    the same name in different directories share one saved offset. *)
Theorem offset_file_ignores_directory (base dir name : jsstring) :
  ~ In 47%N name ->
  OffsetStore.offsetFile base (dir ++ lit "/" ++ name)
  = base ++ lit "/" ++ name ++ lit ".offset".
Proof.
  intros Hn. unfold OffsetStore.offsetFile.
  destruct (split_after_sep 47%N dir name Hn) as [front [Hf Hs]].
  change (dir ++ lit "/" ++ name) with (dir ++ 47%N :: name).
  unfold jsstring, jschar in *.
  rewrite Hs, last_app_nonempty by discriminate. reflexivity.
Qed.

(** Witness of X20: the file [t.csv] of the directory [/a/b]. *)
Lemma offset_file_ignores_directory_witness :
  OffsetStore.offsetFile (lit "off") (lit "/a/b" ++ lit "/" ++ lit "t.csv")
  = lit "off" ++ lit "/" ++ lit "t.csv" ++ lit ".offset".
Proof.
  apply (offset_file_ignores_directory (lit "off") (lit "/a/b") (lit "t.csv")).
  vm_compute. intros H. repeat destruct H as [H|H]; try discriminate H; exact H.
Defined.

Lemma Readline_mapRow_get HM (r : record) h d :
  NoDup (map snd HM) -> In (h, d) HM ->
  get d (Readline.mapRow HM r)
  = Some (match get h r with Some value => value | None => JStr [] end).
Proof.
  intros Hnd Hin. unfold Readline.mapRow.
  rewrite (fold_left_ext _
    (fun acc x => set (snd x)
                      (match get (fst x) r with
                       | None | Some (JStr []) => JStr []
                       | Some value => value
                       end) acc))
    by (intros a [k f]; reflexivity).
  refine (eq_trans (fold_set_get _ _ snd
             (fun x => match get (fst x) r with
                       | None | Some (JStr []) => JStr []
                       | Some value => value
                       end) HM [] (h, d) Hnd Hin) _).
  cbn [fst]. destruct (get h r) as [[| | |[|c s]]|]; reflexivity.
Qed.

(** X21: in the line-reader agent [mapRow] only renames: with distinct keys
    in [FIELD_TYPES] and distinct output names in [HEADER_MAPPING], the
    stored field of a typed column is exactly what [parseValue] returned
    for its cell, the number 0, [NaN] and [null] included, and the field
    of a column without a type is the empty string. *)
Theorem readline_row_field pow HM FT (r : row) h d :
  NoDup (keys FT) -> NoDup (map snd HM) -> In (h, d) HM ->
  get d (Readline.mapRow HM (ServerRow.parseRow pow FT r))
  = Some (match get h FT with
          | Some t => Server.parseValue pow (get h r) t
          | None => JStr []
          end).
Proof.
  intros Hft Hhm Hin.
  rewrite (Readline_mapRow_get HM _ h d Hhm Hin), (parseRow_get pow FT r h Hft).
  destruct (get h FT); reflexivity.
Qed.

(** Witness of X21: the cell ["0"] of the [int] column [qty] is stored as
    the number 0. *)
Lemma readline_row_field_witness :
  get (key_of "qty") (Readline.mapRow qtyAndTag
                        (ServerRow.parseRow exactPow qtyOnly rowQtyTag))
  = Some (JNum (S754_zero false)).
Proof.
  refine (eq_trans (readline_row_field exactPow qtyAndTag qtyOnly rowQtyTag
                      (key_of "qty") (key_of "qty") _ _ _) _).
  - vm_compute. repeat (constructor; [intros H; repeat destruct H as [H|H]; try discriminate H; exact H|]).
    constructor.
  - vm_compute. repeat (constructor; [intros H; repeat destruct H as [H|H]; try discriminate H; exact H|]).
    constructor.
  - left. reflexivity.
  - vm_compute. reflexivity.
Defined.
